(** * Navigation and index generation for a documentation tree

    A shallow embedding of [generate_nav_and_index.py] and [update_nav.py]:
    the title formatter, the recursive directory scanners [scan_docs] and
    [build_nav], the index renderer [generate_index_md], the configuration
    updaters [update_mkdocs_yml] and [update_mkdocs_yaml], and [main].

    Conventions of the embedding.
    - A Python [str] is a Rocq [string]; the characters are read as ASCII
      code points, the range on which [str.lower] and [str.title] only
      touch the letters A..Z and a..z.  What depends on the casing is
      stated for names of ASCII characters ([ascii_name]); for other names
      Python's casing follows the Unicode tables, which are not embedded.
    - The file system is a finite tree; a path is resolved to the node it
      names before the scanner is entered.
    - A call that may raise returns a [result]; the interpreter's recursion
      limit is the [fuel] of the recursive scanners.
    - The configuration file is represented by the value [yaml.safe_load]
      returns on it; [yaml.dump] stores a value that loads back unchanged.
    - A write that fails does so when the file is opened, which leaves the
      file as it was; a failure after the file has been truncated (during
      [yaml.dump] or [f.write]) and the [print] calls, which follow the
      writes, are not embedded.  No property below speaks of them. *)

From Stdlib Require Import Strings.String Strings.Ascii.
From Stdlib Require Import Lists.List Bool.Bool Arith.PeanoNat Arith.Arith.
From Stdlib Require Import Sorting.Sorted Sorting.Permutation.
From Stdlib Require Import NArith.NArith ZArith.ZArith micromega.Lia.
Import ListNotations.

Set Warnings "-register-all".

Local Open Scope string_scope.
Local Open Scope list_scope.
Local Open Scope nat_scope.

(** * Python string primitives *)

Module PyStr.

Definition code (c : ascii) : nat := nat_of_ascii c.

Definition is_upper (c : ascii) : bool :=
  (65 <=? code c) && (code c <=? 90).

Definition is_lower (c : ascii) : bool :=
  (97 <=? code c) && (code c <=? 122).

(** [Py_UNICODE_ISUPPER || Py_UNICODE_ISLOWER] ("cased") on ASCII. *)
Definition is_cased (c : ascii) : bool := is_upper c || is_lower c.

Definition to_lower (c : ascii) : ascii :=
  if is_upper c then ascii_of_nat (code c + 32) else c.

Definition to_upper (c : ascii) : ascii :=
  if is_lower c then ascii_of_nat (code c - 32) else c.

Fixpoint smap (f : ascii -> ascii) (s : string) : string :=
  match s with
  | EmptyString => EmptyString
  | String c r => String (f c) (smap f r)
  end.

(** [s.lower()] *)
Definition lower (s : string) : string := smap to_lower s.

(** [s.replace(old, new)] for one-character [old] and [new]. *)
Definition replace (old new : ascii) (s : string) : string :=
  smap (fun c => if Ascii.eqb c old then new else c) s.

(** [s.title()] on ASCII strings: the loop of [unicode_title], with its
    flag [previous_is_cased]; a character after a cased one is lower-cased,
    any other one is title-cased (upper-cased, on ASCII).  Beyond ASCII
    the Unicode case mappings apply, which may even change the length. *)
Fixpoint title_loop (previous_is_cased : bool) (s : string) : string :=
  match s with
  | EmptyString => EmptyString
  | String c r =>
      String (if previous_is_cased then to_lower c else to_upper c)
             (title_loop (is_cased c) r)
  end.

Definition title (s : string) : string := title_loop false s.

(** [s.startswith(p)] *)
Definition startswith (s p : string) : bool := String.prefix p s.

(** [s.endswith(p)] *)
Definition endswith (s p : string) : bool :=
  (String.length p <=? String.length s)
  && String.eqb
       (String.substring (String.length s - String.length p)
                         (String.length p) s) p.

(** ['#' * n] *)
Fixpoint repeat (c : ascii) (n : nat) : string :=
  match n with
  | O => EmptyString
  | S k => String c (repeat c k)
  end.

(** [sep.join(parts)] *)
Definition join (sep : string) (parts : list string) : string :=
  String.concat sep parts.

(** [s.rfind(c)] for a one-character [c], as an option. *)
Fixpoint rfind (c : ascii) (s : string) : option nat :=
  match s with
  | EmptyString => None
  | String a r =>
      match rfind c r with
      | Some i => Some (S i)
      | None => if Ascii.eqb a c then Some 0 else None
      end
  end.

(** [s[:n]] *)
Definition take (n : nat) (s : string) : string := String.substring 0 n s.

End PyStr.

(** * [os.path] on a POSIX host *)

Module OsPath.

Definition sep : ascii := "/"%char.

(** [posixpath.join(a, b)] *)
Definition join (a b : string) : string :=
  if PyStr.startswith b "/" then b
  else if (String.eqb a "") || PyStr.endswith a "/" then (a ++ b)%string
  else (a ++ "/" ++ b)%string.

(** The loop of [genericpath._splitext] over the base name up to its
    last dot: a character other than a dot makes the split happen. *)
Fixpoint has_non_dot (s : string) : bool :=
  match s with
  | EmptyString => false
  | String c r => if Ascii.eqb c "."%char then has_non_dot r else true
  end.

(** [os.path.splitext(p)[0]] *)
Definition splitext_root (p : string) : string :=
  match PyStr.rfind "."%char p with
  | None => p
  | Some dotIndex =>
      let filenameIndex :=
        match PyStr.rfind sep p with
        | Some sepIndex => S sepIndex
        | None => 0
        end in
      if (filenameIndex <=? dotIndex)
         && has_non_dot (String.substring filenameIndex
                           (dotIndex - filenameIndex) p)
      then PyStr.take dotIndex p
      else p
  end.

End OsPath.

(** * Titles *)

(** [generate_nav_and_index.format_title] *)
Definition format_title (name : string) : string :=
  PyStr.title (PyStr.replace "-"%char " "%char
                 (PyStr.replace "_"%char " "%char name)).

(** [update_nav.title_case] *)
Definition title_case (name : string) : string :=
  PyStr.title (PyStr.replace "_"%char " "%char (OsPath.splitext_root name)).

(** * Errors *)

Inductive error : Type :=
| FileNotFoundError
| NotADirectoryError
| IsADirectoryError
| FileExistsError
| PermissionError
| RecursionError
| TypeError
| YAMLError.

Inductive result (A : Type) : Type :=
| Ok (a : A)
| Err (e : error).

Arguments Ok {A} a.
Arguments Err {A} e.

Definition rbind {A B : Type} (r : result A) (k : A -> result B) : result B :=
  match r with
  | Ok a => k a
  | Err e => Err e
  end.

Notation "x <- r ;; k" := (rbind r (fun x => k))
  (at level 61, r at next level, right associativity).
Notation "' p <- r ;; k" := (rbind r (fun x => let 'p := x in k))
  (at level 61, p pattern, r at next level, right associativity).

(** * The file system *)

Inductive fsnode : Type :=
| FFile (content : string)
| FDir (entries : list (string * fsnode)).

Definition listing : Type := list (string * fsnode).

Fixpoint lookup (name : string) (es : listing) : option fsnode :=
  match es with
  | [] => None
  | (n, x) :: rest => if String.eqb n name then Some x else lookup name rest
  end.

(** What [os.path.join(dir_path, item)] names, [dir_path] naming [dir]. *)
Definition child (dir : option fsnode) (item : string) : option fsnode :=
  match dir with
  | Some (FDir es) => lookup item es
  | _ => None
  end.

(** [os.listdir(p)], [p] naming [dir]; the order is the directory's own. *)
Definition os_listdir (dir : option fsnode) : result (list string) :=
  match dir with
  | None => Err FileNotFoundError
  | Some (FFile _) => Err NotADirectoryError
  | Some (FDir es) => Ok (map fst es)
  end.

(** [os.path.isdir(p)] *)
Definition os_path_isdir (x : option fsnode) : bool :=
  match x with
  | Some (FDir _) => true
  | _ => false
  end.

(** [sorted(names)]: ascending code-point order of strings. *)
Fixpoint insert_sorted (x : string) (l : list string) : list string :=
  match l with
  | [] => [x]
  | y :: r => if String.leb x y then x :: l else y :: insert_sorted x r
  end.

Fixpoint sorted (l : list string) : list string :=
  match l with
  | [] => []
  | x :: r => insert_sorted x (sorted r)
  end.

(** * Navigation and index trees *)

(** One element of [nav]: the dict [{title: file_path}] or
    [{title: sub_nav}]. *)
Inductive NavNode : Type :=
| NavLeaf (title path : string)
| NavGroup (title : string) (children : list NavNode).

(** One element of [index_links]: the tuple [(title, file_path)] or
    [(title, sub_index)]. *)
Inductive IndexLink : Type :=
| IdxEntry (title path : string)
| IdxSection (title : string) (children : list IndexLink).

(** * generate_nav_and_index.py *)

Definition DOCS_DIR : string := "docs".
Definition MKDOCS_YML : string := "mkdocs.yml".

(** The name of the index below [DOCS_DIR], and [INDEX_FILE] itself. *)
Definition INDEX_NAME : string := "index.md".
Definition INDEX_FILE : string := OsPath.join DOCS_DIR INDEX_NAME.

(** The test of line 21. *)
Definition hidden (item : string) : bool :=
  PyStr.startswith item "." || PyStr.startswith item "_".

(** The test of line 29. *)
Definition is_doc (item : string) : bool :=
  PyStr.endswith item ".md" && negb (String.eqb (PyStr.lower item) "index.md").

Section ScanLoop.

(** The recursive call, the directory being listed and its [base]. *)
Variable rec : option fsnode -> string ->
               result (list NavNode * list IndexLink).
Variable dir : option fsnode.
Variable base : string.

(** The [for] loop of [scan_docs], lines 17 to 33. *)
Fixpoint scan_items (items : list string)
    (nav : list NavNode) (index_links : list IndexLink)
    : result (list NavNode * list IndexLink) :=
  match items with
  | [] => Ok (nav, index_links)
  | item :: rest =>
      let full_path := child dir item in
      let rel_path := OsPath.join base item in
      if hidden item then scan_items rest nav index_links
      else if os_path_isdir full_path then
        '(sub_nav, sub_index) <- rec full_path rel_path ;;
        let title := format_title item in
        scan_items rest (nav ++ [NavGroup title sub_nav])
                   (index_links ++ [IdxSection title sub_index])
      else if is_doc item then
        let title := format_title (OsPath.splitext_root item) in
        let file_path := PyStr.replace OsPath.sep "/"%char rel_path in
        scan_items rest (nav ++ [NavLeaf title file_path])
                   (index_links ++ [IdxEntry title file_path])
      else scan_items rest nav index_links
  end.

End ScanLoop.

(** [scan_docs(dir_path, base)], [dir_path] naming [dir]. *)
Fixpoint scan_docs (fuel : nat) (dir : option fsnode) (base : string)
    : result (list NavNode * list IndexLink) :=
  match fuel with
  | O => Err RecursionError
  | S fuel' =>
      items <- os_listdir dir ;;
      scan_items (scan_docs fuel') dir base (sorted items) [] []
  end.

Definition nl : string := String (ascii_of_nat 10) EmptyString.

(** The inner [render_links] of [generate_index_md], appending to the
    shared [lines]; [render_link] is its loop body. *)
Fixpoint render_link (l : IndexLink) (indent_level : nat)
    (lines : list string) {struct l} : list string :=
  match l with
  | IdxSection title link =>
      (fix render_links (links : list IndexLink) (lines : list string)
         : list string :=
         match links with
         | [] => lines
         | x :: rest => render_links rest (render_link x (S indent_level) lines)
         end)
        link
        (lines ++ [(nl ++ PyStr.repeat "#"%char indent_level ++ " " ++ title
                       ++ nl)%string])
  | IdxEntry title link =>
      lines ++ [("- [" ++ title ++ "](" ++ link ++ ")")%string]
  end.

Fixpoint render_links (links : list IndexLink) (indent_level : nat)
    (lines : list string) : list string :=
  match links with
  | [] => lines
  | x :: rest =>
      render_links rest indent_level (render_link x indent_level lines)
  end.

Definition generate_index_md (index_links : list IndexLink) (level : nat)
    : string :=
  PyStr.join nl
    (render_links index_links level
       [("# Documentation Index" ++ nl)%string]).

(** * update_nav.py *)

(** [os.path.relpath(full_path, DOCS_DIR)] for an entry below [DOCS_DIR]:
    the entry names from [DOCS_DIR] down, joined by the separator; [rel] is
    that chain for the directory being listed, empty at [DOCS_DIR] itself. *)
Definition relpath_below (rel entry : string) : string :=
  if String.eqb rel "" then entry else (rel ++ "/" ++ entry)%string.

Section BuildLoop.

Variable rec : option fsnode -> string -> result (list NavNode).
Variable dir : option fsnode.
Variable rel : string.

(** The [for] loop of [build_nav], lines 15 to 24. *)
Fixpoint build_items (entries : list string) (nav : list NavNode)
    : result (list NavNode) :=
  match entries with
  | [] => Ok nav
  | entry :: rest =>
      let full_path := child dir entry in
      let rel_path := relpath_below rel entry in
      if os_path_isdir full_path then
        children <- rec full_path rel_path ;;
        match children with
        | [] => build_items rest nav
        | _ :: _ =>
            build_items rest
              (nav ++ [NavGroup
                         (PyStr.title (PyStr.replace "_"%char " "%char entry))
                         children])
        end
      else if PyStr.endswith entry ".md" then
        build_items rest
          (nav ++ [NavLeaf (title_case entry)
                           (PyStr.replace "\"%char "/"%char rel_path)])
      else build_items rest nav
  end.

End BuildLoop.

(** [build_nav(path)], [path] naming [dir]. *)
Fixpoint build_nav (fuel : nat) (dir : option fsnode) (rel : string)
    : result (list NavNode) :=
  match fuel with
  | O => Err RecursionError
  | S fuel' =>
      entries <- os_listdir dir ;;
      build_items (build_nav fuel') dir rel (sorted entries) []
  end.

(** * The configuration document *)

(** The values [yaml.safe_load] builds: scalars, lists and dicts whose
    keys are scalars; a dict keeps its insertion order. *)
Inductive scalar : Type :=
| SNull
| SBool (b : bool)
| SInt (z : Z)
| SStr (s : string).

Inductive yaml : Type :=
| YScalar (s : scalar)
| YSeq (items : list yaml)
| YMap (pairs : list (scalar * yaml)).

Definition scalar_eqb (a b : scalar) : bool :=
  match a, b with
  | SNull, SNull => true
  | SBool x, SBool y => Bool.eqb x y
  | SInt x, SInt y => Z.eqb x y
  | SStr x, SStr y => String.eqb x y
  | _, _ => false
  end.

(** [d.get(k)] *)
Fixpoint dict_get (k : scalar) (d : list (scalar * yaml)) : option yaml :=
  match d with
  | [] => None
  | (k', v') :: rest => if scalar_eqb k' k then Some v' else dict_get k rest
  end.

(** [d[k] = v]: an existing key keeps its place, a new key goes last. *)
Fixpoint dict_set (k : scalar) (v : yaml) (d : list (scalar * yaml))
    : list (scalar * yaml) :=
  match d with
  | [] => [(k, v)]
  | (k', v') :: rest =>
      if scalar_eqb k' k then (k, v) :: rest else (k', v') :: dict_set k v rest
  end.

(** Python truth value, as tested by [or]. *)
Definition truthy (v : yaml) : bool :=
  match v with
  | YScalar SNull => false
  | YScalar (SBool b) => b
  | YScalar (SInt z) => negb (Z.eqb z 0)
  | YScalar (SStr s) => negb (String.eqb s "")
  | YSeq [] => false
  | YSeq (_ :: _) => true
  | YMap [] => false
  | YMap (_ :: _) => true
  end.

(** [config[k] = v] on whatever was loaded. *)
Definition setitem (config : yaml) (k : string) (v : yaml) : result yaml :=
  match config with
  | YMap pairs => Ok (YMap (dict_set (SStr k) v pairs))
  | _ => Err TypeError
  end.

(** [nav] as the Python value it is: a list of one-key dicts. *)
Fixpoint nav_node_value (n : NavNode) : yaml :=
  match n with
  | NavLeaf title path => YMap [(SStr title, YScalar (SStr path))]
  | NavGroup title children =>
      YMap [(SStr title, YSeq (map nav_node_value children))]
  end.

Definition nav_value (nav : list NavNode) : yaml :=
  YSeq (map nav_node_value nav).

(** * The working directory and the commands that change it *)

(** What [mkdocs.yml] holds: a text that loads as [doc], or one on which
    [yaml.safe_load] raises. *)
Inductive config_file : Type :=
| Parses (doc : yaml)
| Malformed.

Record world : Type := mkWorld {
  docs : option fsnode;            (* what [DOCS_DIR] names *)
  mkdocs : option config_file;     (* what [MKDOCS_YML] names *)
  mkdocs_writable : bool           (* may [MKDOCS_YML] be opened for writing *)
}.

Definition cmd (A : Type) : Type := world -> world * result A.

Definition ret {A : Type} (a : A) : cmd A := fun w => (w, Ok a).

Definition raise {A : Type} (e : error) : cmd A := fun w => (w, Err e).

Definition bind {A B : Type} (c : cmd A) (k : A -> cmd B) : cmd B :=
  fun w =>
    match c w with
    | (w', Ok a) => k a w'
    | (w', Err e) => (w', Err e)
    end.

Definition lift {A : Type} (f : world -> result A) : cmd A :=
  fun w => (w, f w).

Notation "x <~ c ;;; k" := (bind c (fun x => k))
  (at level 61, c at next level, right associativity).
Notation "c ;;; k" := (bind c (fun _ => k))
  (at level 61, right associativity).

(** [os.path.exists(MKDOCS_YML)] *)
Definition config_exists (w : world) : bool :=
  match mkdocs w with
  | Some _ => true
  | None => false
  end.

(** [open(MKDOCS_YML, 'r')] followed by [yaml.safe_load(f)]. *)
Definition load_config : cmd yaml :=
  lift (fun w =>
          match mkdocs w with
          | None => Err FileNotFoundError
          | Some Malformed => Err YAMLError
          | Some (Parses doc) => Ok doc
          end).

(** [open(MKDOCS_YML, 'w')] followed by [yaml.dump(config, f, ...)], for
    the two outcomes embedded: [open] raises and the file is as it was, or
    the dump goes through.  (A dump that fails after [open] has truncated
    the file is not embedded.) *)
Definition dump_config (config : yaml) : cmd unit :=
  fun w =>
    if mkdocs_writable w
    then (mkWorld (docs w) (Some (Parses config)) (mkdocs_writable w), Ok tt)
    else (w, Err PermissionError).

(** [generate_nav_and_index.update_mkdocs_yml] *)
Definition update_mkdocs_yml (nav : list NavNode) : cmd unit :=
  config <~ (fun w =>
               if config_exists w
               then (loaded <~ load_config ;;;
                     ret (if truthy loaded then loaded else YMap [])) w
               else ret (YMap []) w) ;;;
  config' <~ lift (fun _ => setitem config "nav" (nav_value nav)) ;;;
  dump_config config'.

(** [d[name] = x] on a directory listing. *)
Fixpoint set_entry (name : string) (x : fsnode) (es : listing) : listing :=
  match es with
  | [] => [(name, x)]
  | (n, y) :: rest =>
      if String.eqb n name then (n, x) :: rest
      else (n, y) :: set_entry name x rest
  end.

(** [os.makedirs(DOCS_DIR, exist_ok=True)] *)
Definition makedirs_docs : cmd unit :=
  fun w =>
    match docs w with
    | None => (mkWorld (Some (FDir [])) (mkdocs w) (mkdocs_writable w), Ok tt)
    | Some (FDir _) => (w, Ok tt)
    | Some (FFile _) => (w, Err FileExistsError)
    end.

(** [open(INDEX_FILE, 'w')] followed by [f.write(content)]. *)
Definition write_index (content : string) : cmd unit :=
  fun w =>
    match docs w with
    | None => (w, Err FileNotFoundError)
    | Some (FFile _) => (w, Err NotADirectoryError)
    | Some (FDir es) =>
        match lookup INDEX_NAME es with
        | Some (FDir _) => (w, Err IsADirectoryError)
        | _ =>
            (mkWorld (Some (FDir (set_entry INDEX_NAME (FFile content) es)))
                     (mkdocs w) (mkdocs_writable w), Ok tt)
        end
    end.

(** [generate_nav_and_index.main]; [limit] is the recursion limit. *)
Definition main (limit : nat) : cmd unit :=
  scanned <~ lift (fun w => scan_docs limit (docs w) "") ;;;
  let '(nav, index_links) := scanned in
  update_mkdocs_yml nav ;;;
  let index_content := generate_index_md index_links 2 in
  makedirs_docs ;;;
  write_index index_content.

(** [update_nav.update_mkdocs_yaml] *)
Definition update_mkdocs_yaml (limit : nat) : cmd unit :=
  config <~ load_config ;;;
  nav <~ lift (fun w => build_nav limit (docs w) "") ;;;
  config' <~ lift (fun _ => setitem config "nav" (nav_value nav)) ;;;
  dump_config config'.

(** * Notions used to state the properties *)

(** Ascending code-point order on names. *)
Definition str_le (a b : string) : Prop := String.leb a b = true.

Inductive Forall3 {A B C : Type} (R : A -> B -> C -> Prop)
    : list A -> list B -> list C -> Prop :=
| Forall3_nil : Forall3 R [] [] []
| Forall3_cons a b c la lb lc :
    R a b c -> Forall3 R la lb lc -> Forall3 R (a :: la) (b :: lb) (c :: lc).

(** The directory with every entry whose name starts with a dot or an
    underscore removed, at every depth. *)
Fixpoint prune_hidden (x : fsnode) : fsnode :=
  match x with
  | FFile content => FFile content
  | FDir es =>
      FDir ((fix prune (es : listing) : listing :=
               match es with
               | [] => []
               | (n, y) :: rest =>
                   if hidden n then prune rest
                   else (n, prune_hidden y) :: prune rest
               end) es)
  end.

Fixpoint prune_entries (es : listing) : listing :=
  match es with
  | [] => []
  | (n, y) :: rest =>
      if hidden n then prune_entries rest
      else (n, prune_hidden y) :: prune_entries rest
  end.

(** Does [scan_docs] append a node for [item] when it lists [dir]? *)
Definition emitting (dir : option fsnode) (item : string) : bool :=
  negb (hidden item) && (os_path_isdir (child dir item) || is_doc item).

(** The node and the link [scan_docs] appends for [item]; [rec] is the
    scan of the sub-directories. *)
Definition emits (rec : option fsnode -> string ->
                        result (list NavNode * list IndexLink))
    (dir : option fsnode) (base item : string)
    (node : NavNode) (link : IndexLink) : Prop :=
  if os_path_isdir (child dir item) then
    exists sub_nav sub_index,
      rec (child dir item) (OsPath.join base item) = Ok (sub_nav, sub_index)
      /\ node = NavGroup (format_title item) sub_nav
      /\ link = IdxSection (format_title item) sub_index
  else
    node = NavLeaf (format_title (OsPath.splitext_root item))
                   (PyStr.replace OsPath.sep "/"%char (OsPath.join base item))
    /\ link = IdxEntry (format_title (OsPath.splitext_root item))
                   (PyStr.replace OsPath.sep "/"%char (OsPath.join base item)).

(** No group without children, at any depth. *)
Fixpoint no_empty_group (n : NavNode) : bool :=
  match n with
  | NavLeaf _ _ => true
  | NavGroup _ children =>
      match children with [] => false | _ :: _ => true end
      && (fix all (l : list NavNode) : bool :=
            match l with
            | [] => true
            | x :: r => no_empty_group x && all r
            end) children
  end.

(** The names listed by [dir], and the nodes and links [scan_docs]
    returns for it, stand in ascending name order at every depth: [ns] are
    the raw names the nodes come from. *)
Inductive name_ordered
    : option fsnode -> string -> list NavNode -> list IndexLink -> Prop :=
| name_ordered_intro dir base ns nav index_links :
    StronglySorted str_le ns ->
    (forall n, In n ns ->
       exists es, dir = Some (FDir es) /\ In n (map fst es)) ->
    Forall3
      (fun item node link =>
         (os_path_isdir (child dir item) = false
          /\ node = NavLeaf (format_title (OsPath.splitext_root item))
                       (PyStr.replace OsPath.sep "/"%char
                          (OsPath.join base item))
          /\ link = IdxEntry (format_title (OsPath.splitext_root item))
                       (PyStr.replace OsPath.sep "/"%char
                          (OsPath.join base item)))
         \/
         (os_path_isdir (child dir item) = true
          /\ exists sub_nav sub_index,
              node = NavGroup (format_title item) sub_nav
              /\ link = IdxSection (format_title item) sub_index
              /\ name_ordered (child dir item) (OsPath.join base item)
                              sub_nav sub_index))
      ns nav index_links ->
    name_ordered dir base nav index_links.

(** The entries of an index tree, in the order of the tree. *)
Fixpoint entries_of (l : IndexLink) : list (string * string) :=
  match l with
  | IdxEntry title path => [(title, path)]
  | IdxSection _ children =>
      (fix go (cs : list IndexLink) : list (string * string) :=
         match cs with
         | [] => []
         | c :: r => entries_of c ++ go r
         end) children
  end.

Fixpoint entries_of_list (ls : list IndexLink) : list (string * string) :=
  match ls with
  | [] => []
  | l :: r => entries_of l ++ entries_of_list r
  end.

(** A line of the index that is a list item. *)
Definition is_item_line (line : string) : bool :=
  PyStr.startswith line "- [".

Definition item_line (e : string * string) : string :=
  ("- [" ++ fst e ++ "](" ++ snd e ++ ")")%string.






(** The names [scan_docs] appends a node for when it lists [dir]. *)
Definition emitted_names (dir : option fsnode) : list string :=
  match dir with
  | Some (FDir es) => filter (emitting dir) (sorted (map fst es))
  | _ => []
  end.

(** Does [build_nav] append a node for [entry] when it lists [dir]? *)
Definition emitting_b (rec : option fsnode -> string -> result (list NavNode))
    (dir : option fsnode) (rel entry : string) : bool :=
  if os_path_isdir (child dir entry) then
    match rec (child dir entry) (relpath_below rel entry) with
    | Ok (_ :: _) => true
    | _ => false
    end
  else PyStr.endswith entry ".md".

(** The node [build_nav] appends for [entry]. *)
Definition emits_b (rec : option fsnode -> string -> result (list NavNode))
    (dir : option fsnode) (rel entry : string) (node : NavNode) : Prop :=
  if os_path_isdir (child dir entry) then
    exists children,
      rec (child dir entry) (relpath_below rel entry) = Ok children
      /\ children <> []
      /\ node = NavGroup (PyStr.title (PyStr.replace "_"%char " "%char entry))
                         children
  else
    node = NavLeaf (title_case entry)
                   (PyStr.replace "\"%char "/"%char (relpath_below rel entry)).

Definition built_names (rec : option fsnode -> string -> result (list NavNode))
    (dir : option fsnode) (rel : string) : list string :=
  match dir with
  | Some (FDir es) => filter (emitting_b rec dir rel) (sorted (map fst es))
  | _ => []
  end.

(** The document [update_mkdocs_yml] starts from. *)
Definition starting_config (w : world) : result yaml :=
  match mkdocs w with
  | None => Ok (YMap [])
  | Some Malformed => Err YAMLError
  | Some (Parses doc) => Ok (if truthy doc then doc else YMap [])
  end.

(** The pairs of a dict under the keys other than [k], in their order. *)
Definition other_keys (k : scalar) (d : list (scalar * yaml))
    : list (scalar * yaml) :=
  filter (fun p => negb (scalar_eqb (fst p) k)) d.

(** The two replacements of [format_title], as one map on characters. *)
Definition unseparate (c : ascii) : ascii :=
  if Ascii.eqb (if Ascii.eqb c "_" then " "%char else c) "-"
  then " "%char
  else if Ascii.eqb c "_" then " "%char else c.

(** What the configuration step may change in a dict [m], giving [m']:
    the value under [nav] is the new tree; every other key keeps its value
    and its place; a [nav] that was not there goes last. *)
Definition nav_only_change (nav : list NavNode)
    (m m' : list (scalar * yaml)) : Prop :=
  dict_get (SStr "nav") m' = Some (nav_value nav)
  /\ (forall k, k <> SStr "nav" -> dict_get k m' = dict_get k m)
  /\ other_keys (SStr "nav") m' = other_keys (SStr "nav") m
  /\ (dict_get (SStr "nav") m = None ->
      m' = m ++ [(SStr "nav", nav_value nav)]).

(** The documentation root of the specification's example, with an empty
    directory added. *)
Definition example_docs : fsnode :=
  FDir [("index.md", FFile "");
        ("guide", FDir [("intro.md", FFile ""); ("_draft.md", FFile "")]);
        (".hidden", FDir [("note.md", FFile "")]);
        ("empty", FDir [])].

Definition example_config : list (scalar * yaml) :=
  [(SStr "site_name", YScalar (SStr "X"))].

Definition example_world : world :=
  mkWorld (Some example_docs) (Some (Parses (YMap example_config))) true.

(** The number of nested calls a scan of [x] needs. *)
Fixpoint depth (x : fsnode) : nat :=
  match x with
  | FFile _ => 0
  | FDir es =>
      S ((fix deepest (es : listing) : nat :=
            match es with
            | [] => 0
            | (_, y) :: rest => Nat.max (depth y) (deepest rest)
            end) es)
  end.

Fixpoint deepest (es : listing) : nat :=
  match es with
  | [] => 0
  | (_, y) :: rest => Nat.max (depth y) (deepest rest)
  end.

(** Induction on index trees, through the lists of children. *)
Section IndexLinkInduction.

Variable P : IndexLink -> Prop.
Hypothesis P_entry : forall title path, P (IdxEntry title path).
Hypothesis P_section :
  forall title children, Forall P children -> P (IdxSection title children).

Fixpoint IndexLink_nested_ind (l : IndexLink) : P l :=
  match l with
  | IdxEntry title path => P_entry title path
  | IdxSection title children =>
      P_section title children
        ((fix all (cs : list IndexLink) : Forall P cs :=
            match cs with
            | [] => Forall_nil P
            | c :: r => Forall_cons c (IndexLink_nested_ind c) (all r)
            end) children)
  end.

End IndexLinkInduction.

(** * Further notions *)

(** A name of ASCII characters only, the names on which the casing of
    [PyStr] is Python's. *)
Fixpoint ascii_name (s : string) : bool :=
  match s with
  | EmptyString => true
  | String c r => (PyStr.code c <? 128) && ascii_name r
  end.

(** The character [c] does not occur in [s]. *)
Fixpoint no_char (c : ascii) (s : string) : bool :=
  match s with
  | EmptyString => true
  | String x r => negb (Ascii.eqb x c) && no_char c r
  end.

(** The index link that mirrors a navigation node. *)
Fixpoint link_of_node (n : NavNode) : IndexLink :=
  match n with
  | NavLeaf title path => IdxEntry title path
  | NavGroup title children =>
      IdxSection title
        ((fix links (cs : list NavNode) : list IndexLink :=
            match cs with
            | [] => []
            | c :: r => link_of_node c :: links r
            end) children)
  end.

(** [leafP] holds of every leaf and [groupP] of every group title of a
    navigation node, at any depth. *)
Fixpoint nav_all (leafP : string -> string -> bool) (groupP : string -> bool)
    (n : NavNode) : bool :=
  match n with
  | NavLeaf title path => leafP title path
  | NavGroup title children =>
      groupP title
      && (fix all (cs : list NavNode) : bool :=
            match cs with
            | [] => true
            | c :: r => nav_all leafP groupP c && all r
            end) children
  end.

(** A leaf as both scanners build it: a title that is not empty and a path
    that ends in the document extension. *)
Definition sound_leaf (title path : string) : bool :=
  negb (String.eqb title "") && PyStr.endswith path ".md".

(** The number of links of an index tree, sections included. *)
Fixpoint link_count (l : IndexLink) : nat :=
  match l with
  | IdxEntry _ _ => 1
  | IdxSection _ children =>
      S ((fix count (cs : list IndexLink) : nat :=
            match cs with
            | [] => 0
            | c :: r => link_count c + count r
            end) children)
  end.

Fixpoint link_count_list (ls : list IndexLink) : nat :=
  match ls with
  | [] => 0
  | l :: r => link_count l + link_count_list r
  end.

(** The sections of an index tree in the order of the tree, each with the
    heading level it is met at when the tree is entered at [level]. *)
Fixpoint headings_of (level : nat) (l : IndexLink) : list (nat * string) :=
  match l with
  | IdxEntry _ _ => []
  | IdxSection title children =>
      (level, title)
      :: (fix go (cs : list IndexLink) : list (nat * string) :=
            match cs with
            | [] => []
            | c :: r => headings_of (S level) c ++ go r
            end) children
  end.

Fixpoint headings_of_list (level : nat) (ls : list IndexLink)
    : list (nat * string) :=
  match ls with
  | [] => []
  | l :: r => headings_of level l ++ headings_of_list level r
  end.

Definition heading_line (h : nat * string) : string :=
  (nl ++ PyStr.repeat "#"%char (fst h) ++ " " ++ snd h ++ nl)%string.

Definition index_title_line : string := ("# Documentation Index" ++ nl)%string.

(** [p.split('/')] *)
Fixpoint split_path (s : string) : list string :=
  match s with
  | EmptyString => [EmptyString]
  | String c r =>
      if Ascii.eqb c "/" then EmptyString :: split_path r
      else match split_path r with
           | [] => [String c EmptyString]
           | h :: t => String c h :: t
           end
  end.

(** The node reached from [x] along the names [comps]. *)
Fixpoint walk (x : fsnode) (comps : list string) : option fsnode :=
  match comps with
  | [] => Some x
  | c :: rest =>
      match x with
      | FDir es =>
          match lookup c es with
          | Some y => walk y rest
          | None => None
          end
      | FFile _ => None
      end
  end.

(** [P] holds of every name in the tree [x], at any depth. *)
Fixpoint names_all (P : string -> bool) (x : fsnode) : bool :=
  match x with
  | FFile _ => true
  | FDir es =>
      (fix all (es : listing) : bool :=
         match es with
         | [] => true
         | (n, y) :: rest => P n && names_all P y && all rest
         end) es
  end.

Fixpoint entries_all (P : string -> bool) (es : listing) : bool :=
  match es with
  | [] => true
  | (n, y) :: rest => P n && names_all P y && entries_all P rest
  end.

(** A name as a file system hands it out: not empty, without a slash. *)
Definition path_component (n : string) : bool :=
  negb (String.eqb n "") && no_char "/" n.

(** [NavLeaf title path] occurs in the node, at some depth. *)
Inductive leaf_in : NavNode -> string -> string -> Prop :=
| leaf_here title path : leaf_in (NavLeaf title path) title path
| leaf_below title children c title' path :
    In c children -> leaf_in c title' path ->
    leaf_in (NavGroup title children) title' path.

(** A navigation node without its groups that hold no leaf. *)
Fixpoint elide (n : NavNode) : list NavNode :=
  match n with
  | NavLeaf _ _ => [n]
  | NavGroup title children =>
      match (fix go (cs : list NavNode) : list NavNode :=
               match cs with
               | [] => []
               | c :: r => elide c ++ go r
               end) children with
      | [] => []
      | c :: r => [NavGroup title (c :: r)]
      end
  end.

Fixpoint elide_list (ns : list NavNode) : list NavNode :=
  match ns with
  | [] => []
  | n :: r => elide n ++ elide_list r
  end.

(** A name on which the two programs do not differ: a path component that
    neither starts with a dot or an underscore, nor holds a hyphen or a
    backslash, nor is [index.md] in any casing. *)
Definition shared_name (n : string) : bool :=
  path_component n && negb (hidden n) && no_char "-" n && no_char "\" n
  && negb (String.eqb (PyStr.lower n) "index.md").

(** A path component without a backslash. *)
Definition posix_name (n : string) : bool :=
  path_component n && no_char "\" n.

(** The leaves of a navigation tree, in the order of the tree. *)
Fixpoint leaves_of (n : NavNode) : list (string * string) :=
  match n with
  | NavLeaf title path => [(title, path)]
  | NavGroup _ children =>
      (fix go (cs : list NavNode) : list (string * string) :=
         match cs with
         | [] => []
         | c :: r => leaves_of c ++ go r
         end) children
  end.

Fixpoint leaves_of_list (ns : list NavNode) : list (string * string) :=
  match ns with
  | [] => []
  | n :: r => leaves_of n ++ leaves_of_list r
  end.

(** Induction on navigation trees, through the lists of children. *)
Section NavNodeInduction.

Variable P : NavNode -> Prop.
Hypothesis P_leaf : forall title path, P (NavLeaf title path).
Hypothesis P_group :
  forall title children, Forall P children -> P (NavGroup title children).

Fixpoint NavNode_nested_ind (n : NavNode) : P n :=
  match n with
  | NavLeaf title path => P_leaf title path
  | NavGroup title children =>
      P_group title children
        ((fix all (cs : list NavNode) : Forall P cs :=
            match cs with
            | [] => Forall_nil P
            | c :: r => Forall_cons c (NavNode_nested_ind c) (all r)
            end) children)
  end.

End NavNodeInduction.

(** * Order and sorting *)

Lemma str_compare_refl (s : string) : String.compare s s = Eq.
Proof.
  induction s as [|c s IH]; simpl; [reflexivity|].
  unfold Ascii.compare. now rewrite N.compare_refl.
Qed.

Lemma str_compare_lt_trans (a b c : string) :
  String.compare a b = Lt -> String.compare b c = Lt -> String.compare a c = Lt.
Proof.
  revert b c. induction a as [|x a IH]; intros [|y b] [|z c]; simpl;
    try discriminate; try reflexivity.
  unfold Ascii.compare.
  destruct (N.compare_spec (N_of_ascii x) (N_of_ascii y)) as [E1|L1|G1];
    try discriminate;
    destruct (N.compare_spec (N_of_ascii y) (N_of_ascii z)) as [E2|L2|G2];
    try discriminate; intros H1 H2.
  - rewrite E1, E2, N.compare_refl. eauto.
  - rewrite E1. now apply N.compare_lt_iff in L2 as ->.
  - rewrite <- E2. now apply N.compare_lt_iff in L1 as ->.
  - assert (N_of_ascii x < N_of_ascii z)%N as L by lia.
    now apply N.compare_lt_iff in L as ->.
Qed.

Lemma str_le_refl (a : string) : str_le a a.
Proof. unfold str_le, String.leb. now rewrite str_compare_refl. Qed.

Lemma str_le_trans (a b c : string) : str_le a b -> str_le b c -> str_le a c.
Proof.
  unfold str_le, String.leb. intros H1 H2.
  destruct (String.compare a b) eqn:E1; try discriminate;
    destruct (String.compare b c) eqn:E2; try discriminate.
  - apply String.compare_eq_iff in E1. subst. now rewrite E2.
  - apply String.compare_eq_iff in E1. subst. now rewrite E2.
  - apply String.compare_eq_iff in E2. subst. now rewrite E1.
  - now rewrite (str_compare_lt_trans _ _ _ E1 E2).
Qed.

Lemma str_le_total (a b : string) : str_le a b \/ str_le b a.
Proof. apply String.leb_total. Qed.

Lemma str_leb_false (a b : string) : String.leb a b = false -> str_le b a.
Proof.
  intros H. destruct (str_le_total a b) as [H'|H']; [congruence|exact H'].
Qed.

Lemma insert_sorted_perm (x : string) (l : list string) :
  Permutation (x :: l) (insert_sorted x l).
Proof.
  induction l as [|y r IH]; simpl; [reflexivity|].
  destruct (String.leb x y); [reflexivity|].
  rewrite perm_swap. now constructor.
Qed.

Lemma sorted_perm (l : list string) : Permutation l (sorted l).
Proof.
  induction l as [|x r IH]; simpl; [constructor|].
  rewrite <- insert_sorted_perm. now constructor.
Qed.

Lemma insert_sorted_ordered (x : string) (l : list string) :
  StronglySorted str_le l -> StronglySorted str_le (insert_sorted x l).
Proof.
  induction 1 as [|y r Hr IH Hy]; simpl.
  - repeat constructor.
  - destruct (String.leb x y) eqn:E.
    + constructor; [now constructor|].
      constructor; [exact E|].
      eapply Forall_impl; [|exact Hy]. intros z Hz.
      eapply str_le_trans; eauto.
    + constructor; [exact IH|].
      eapply Permutation_Forall; [apply insert_sorted_perm|].
      constructor; [now apply str_leb_false|exact Hy].
Qed.

Lemma sorted_ordered (l : list string) : StronglySorted str_le (sorted l).
Proof.
  induction l as [|x r IH]; simpl; [constructor|].
  now apply insert_sorted_ordered.
Qed.

Lemma sorted_In (l : list string) (x : string) : In x (sorted l) <-> In x l.
Proof.
  split; apply Permutation_in; [symmetry|]; apply sorted_perm.
Qed.

(** Filtering a sorted list and inserting commute. *)
Lemma filter_insert_sorted (p : string -> bool) (x : string) (l : list string) :
  StronglySorted str_le l ->
  filter p (insert_sorted x l)
  = if p x then insert_sorted x (filter p l) else filter p l.
Proof.
  induction 1 as [|y r Hr IH Hy]; simpl.
  - now destruct (p x).
  - destruct (String.leb x y) eqn:E; simpl.
    + destruct (p x) eqn:Px; [|reflexivity].
      destruct (p y) eqn:Py; simpl; [now rewrite E|].
      assert (Forall (str_le x) (filter p r)) as Hx.
      { apply Forall_forall. intros z Hz. apply filter_In in Hz as [Hz _].
        rewrite Forall_forall in Hy. eapply str_le_trans; [exact E|auto]. }
      destruct (filter p r) as [|z t]; [reflexivity|].
      simpl. inversion Hx as [|? ? Hxz _]; subst. now rewrite Hxz.
    + rewrite IH. destruct (p y) eqn:Py; destruct (p x); simpl;
        try rewrite E; reflexivity.
Qed.

Lemma filter_sorted (p : string -> bool) (l : list string) :
  filter p (sorted l) = sorted (filter p l).
Proof.
  induction l as [|x r IH]; simpl; [reflexivity|].
  rewrite filter_insert_sorted by apply sorted_ordered.
  rewrite IH. now destruct (p x).
Qed.

Lemma filter_ordered (p : string -> bool) (l : list string) :
  StronglySorted str_le l -> StronglySorted str_le (filter p l).
Proof.
  induction 1 as [|y r Hr IH Hy]; simpl; [constructor|].
  destruct (p y); [|exact IH].
  constructor; [exact IH|].
  apply Forall_forall. intros z Hz. apply filter_In in Hz as [Hz _].
  rewrite Forall_forall in Hy. auto.
Qed.

(** Any ascending arrangement of the names is the one [sorted] returns. *)
Lemma ordered_perm_unique (l1 l2 : list string) :
  StronglySorted str_le l1 -> StronglySorted str_le l2 ->
  Permutation l1 l2 -> l1 = l2.
Proof.
  intros H1. revert l2. induction H1 as [|x r Hr IH Hx]; intros l2 H2 P.
  - now apply Permutation_nil in P.
  - destruct H2 as [|y t Ht Hy].
    + symmetry in P. now apply Permutation_nil in P.
    + assert (x = y) as ->.
      { rewrite Forall_forall in Hx, Hy.
        assert (In y (x :: r)) as Iy
          by (eapply Permutation_in; [symmetry; exact P|now left]).
        assert (In x (y :: t)) as Ix
          by (eapply Permutation_in; [exact P|now left]).
        destruct Iy as [->|Iy]; [reflexivity|].
        destruct Ix as [->|Ix]; [reflexivity|].
        apply String.leb_antisym; [apply Hx|apply Hy]; assumption. }
      f_equal. apply IH; [exact Ht|]. eapply Permutation_cons_inv; exact P.
Qed.

Lemma sorted_unique (l l' : list string) :
  Permutation l l' -> StronglySorted str_le l' -> l' = sorted l.
Proof.
  intros P S. apply ordered_perm_unique; [exact S|apply sorted_ordered|].
  rewrite <- P. apply sorted_perm.
Qed.

(** * The loop of [scan_docs] *)

Section ScanLoopFacts.

Variable rec : option fsnode -> string ->
               result (list NavNode * list IndexLink).
Variable dir : option fsnode.
Variable base : string.

(** The accumulators are only ever appended to. *)
Lemma scan_items_acc (items : list string) :
  forall nav index_links,
    scan_items rec dir base items nav index_links
    = '(n, i) <- scan_items rec dir base items [] [] ;;
      Ok (nav ++ n, index_links ++ i).
Proof.
  induction items as [|item rest IH]; intros nav idx; simpl.
  - now rewrite !app_nil_r.
  - destruct (hidden item); [apply IH|].
    destruct (os_path_isdir (child dir item)).
    + destruct (rec (child dir item) (OsPath.join base item))
        as [[sn si]|e]; simpl; [|reflexivity].
      rewrite IH. rewrite (IH [_] [_]).
      destruct (scan_items rec dir base rest [] []) as [[n i]|e]; simpl;
        [|reflexivity].
      now rewrite <- !app_assoc.
    + destruct (is_doc item); [|apply IH].
      rewrite IH. rewrite (IH [_] [_]).
      destruct (scan_items rec dir base rest [] []) as [[n i]|e]; simpl;
        [|reflexivity].
      now rewrite <- !app_assoc.
Qed.

(** One node and one link per emitting item, in the order of the items. *)
Lemma scan_items_emits (items : list string) :
  forall nav index_links,
    scan_items rec dir base items [] [] = Ok (nav, index_links) ->
    Forall3 (emits rec dir base) (filter (emitting dir) items)
            nav index_links.
Proof.
  induction items as [|item rest IH]; intros nav idx; simpl.
  - intros [= <- <-]. constructor.
  - unfold emitting at 1, emits at 1.
    destruct (hidden item); simpl; [apply IH|].
    destruct (os_path_isdir (child dir item)) eqn:D; simpl.
    + destruct (rec (child dir item) (OsPath.join base item))
        as [[sn si]|e] eqn:R; simpl; [|discriminate].
      rewrite scan_items_acc.
      destruct (scan_items rec dir base rest [] []) as [[n i]|e]; simpl;
        [|discriminate].
      intros [= <- <-]. constructor; [|now apply IH].
      unfold emits. rewrite D. eauto.
    + destruct (is_doc item); simpl; [|apply IH].
      rewrite scan_items_acc.
      destruct (scan_items rec dir base rest [] []) as [[n i]|e]; simpl;
        [|discriminate].
      intros [= <- <-]. constructor; [|now apply IH].
      unfold emits. now rewrite D.
Qed.

(** Items that emit nothing may be dropped from the list. *)
Lemma scan_items_filter (p : string -> bool) (items : list string) :
  (forall item, In item items -> p item = false -> emitting dir item = false) ->
  forall nav index_links,
    scan_items rec dir base (filter p items) nav index_links
    = scan_items rec dir base items nav index_links.
Proof.
  induction items as [|item rest IH]; intros Hp nav idx; simpl;
    [reflexivity|].
  assert (forall i, In i rest -> p i = false -> emitting dir i = false) as Hr
    by (intros; apply Hp; [now right|assumption]).
  destruct (p item) eqn:P; simpl.
  - destruct (hidden item); [now apply IH|].
    destruct (os_path_isdir (child dir item)).
    + destruct (rec _ _) as [[sn si]|e]; simpl; [now apply IH|reflexivity].
    + destruct (is_doc item); now apply IH.
  - specialize (Hp item (or_introl eq_refl) P). unfold emitting in Hp.
    destruct (hidden item); [now apply IH|].
    destruct (os_path_isdir (child dir item)); [discriminate|].
    destruct (is_doc item); [discriminate|now apply IH].
Qed.

End ScanLoopFacts.

(** The loop only looks at whether a visible item is a directory, and at
    what the recursive call returns for it. *)
Lemma scan_items_ext rec1 rec2 dir1 dir2 base (items : list string) :
  (forall item, In item items -> hidden item = false ->
     os_path_isdir (child dir1 item) = os_path_isdir (child dir2 item)
     /\ (os_path_isdir (child dir1 item) = true ->
         rec1 (child dir1 item) (OsPath.join base item)
         = rec2 (child dir2 item) (OsPath.join base item))) ->
  forall nav index_links,
    scan_items rec1 dir1 base items nav index_links
    = scan_items rec2 dir2 base items nav index_links.
Proof.
  induction items as [|item rest IH]; intros H nav idx; simpl; [reflexivity|].
  assert (forall i, In i rest -> hidden i = false ->
            os_path_isdir (child dir1 i) = os_path_isdir (child dir2 i)
            /\ (os_path_isdir (child dir1 i) = true ->
                rec1 (child dir1 i) (OsPath.join base i)
                = rec2 (child dir2 i) (OsPath.join base i))) as Hr
    by (intros; apply H; [now right|assumption]).
  destruct (hidden item) eqn:Hh; [now apply IH|].
  destruct (H item (or_introl eq_refl) Hh) as [Hd Hrec].
  rewrite <- Hd. destruct (os_path_isdir (child dir1 item)).
  - rewrite <- Hrec by reflexivity.
    destruct (rec1 _ _) as [[sn si]|e]; simpl; [now apply IH|reflexivity].
  - destruct (is_doc item); now apply IH.
Qed.

(** * Pruned directories *)

Lemma prune_hidden_dir (es : listing) :
  prune_hidden (FDir es) = FDir (prune_entries es).
Proof.
  reflexivity.
Qed.

Lemma prune_entries_names (es : listing) :
  map fst (prune_entries es)
  = filter (fun n => negb (hidden n)) (map fst es).
Proof.
  induction es as [|[n y] rest IH]; simpl; [reflexivity|].
  destruct (hidden n); simpl; now rewrite IH.
Qed.

Lemma prune_entries_lookup (es : listing) (item : string) :
  hidden item = false ->
  lookup item (prune_entries es) = option_map prune_hidden (lookup item es).
Proof.
  intros Hi. induction es as [|[n y] rest IH]; simpl; [reflexivity|].
  destruct (String.eqb_spec n item) as [->|Hne].
  - rewrite Hi. simpl. now rewrite String.eqb_refl.
  - destruct (hidden n); simpl; [exact IH|].
    destruct (String.eqb_spec n item); [contradiction|exact IH].
Qed.

Lemma isdir_prune (x : option fsnode) :
  os_path_isdir (option_map prune_hidden x) = os_path_isdir x.
Proof. destruct x as [[c|es]|]; reflexivity. Qed.

Lemma scan_docs_prune (fuel : nat) :
  forall dir base,
    scan_docs fuel (option_map prune_hidden dir) base = scan_docs fuel dir base.
Proof.
  induction fuel as [|fuel IH]; intros dir base; [reflexivity|].
  destruct dir as [[c|es]|]; try reflexivity.
  cbn [option_map]. rewrite prune_hidden_dir. cbn [scan_docs os_listdir rbind].
  rewrite prune_entries_names, <- filter_sorted.
  rewrite scan_items_filter.
  - apply scan_items_ext. intros item _ Hi. cbn [child].
    rewrite prune_entries_lookup by exact Hi.
    split; [apply isdir_prune|]. intros _. apply IH.
  - intros item _ Hp. unfold emitting.
    apply negb_false_iff in Hp. now rewrite Hp.
Qed.

(** * One level of [scan_docs] *)

Lemma Forall3_impl {A B C : Type} (R S : A -> B -> C -> Prop) la lb lc :
  (forall a b c, R a b c -> S a b c) ->
  Forall3 R la lb lc -> Forall3 S la lb lc.
Proof. intros H; induction 1; constructor; auto. Qed.

Lemma Forall3_In {A B C : Type} (R : A -> B -> C -> Prop) la lb lc a :
  Forall3 R la lb lc -> In a la ->
  exists b c, In b lb /\ In c lc /\ R a b c.
Proof.
  induction 1 as [|a' b' c' la lb lc HR HF IH]; intros Ha; [contradiction|].
  destruct Ha as [->|Ha].
  - exists b', c'. repeat split; simpl; auto.
  - destruct (IH Ha) as (b & c & Hb & Hc & H).
    exists b, c. repeat split; simpl; auto.
Qed.

Lemma scan_docs_level (fuel : nat) dir base nav index_links :
  scan_docs (S fuel) dir base = Ok (nav, index_links) ->
  Forall3 (emits (scan_docs fuel) dir base) (emitted_names dir)
          nav index_links.
Proof.
  destruct dir as [[c|es]|]; simpl; try discriminate.
  apply scan_items_emits.
Qed.

Lemma emitted_names_In (dir : option fsnode) (item : string) :
  In item (emitted_names dir) <->
  (exists es, dir = Some (FDir es) /\ In item (map fst es))
  /\ hidden item = false
  /\ (os_path_isdir (child dir item) = true \/ is_doc item = true).
Proof.
  unfold emitted_names. destruct dir as [[c|es]|].
  - split; [contradiction|]. now intros [(es & [=] & _) _].
  - rewrite filter_In, sorted_In. unfold emitting.
    rewrite andb_true_iff, negb_true_iff, orb_true_iff.
    split.
    + intros (Hin & Hh & Hd). repeat split; eauto.
    + intros ((es' & [= <-] & Hin) & Hh & Hd). auto.
  - split; [contradiction|]. now intros [(es & [=] & _) _].
Qed.

Lemma emitted_names_ordered (dir : option fsnode) :
  StronglySorted str_le (emitted_names dir).
Proof.
  unfold emitted_names. destruct dir as [[c|es]|]; try constructor.
  apply filter_ordered, sorted_ordered.
Qed.

Lemma scan_docs_name_ordered (fuel : nat) :
  forall dir base nav index_links,
    scan_docs fuel dir base = Ok (nav, index_links) ->
    name_ordered dir base nav index_links.
Proof.
  induction fuel as [|fuel IH]; intros dir base nav idx H; [discriminate|].
  apply scan_docs_level in H.
  apply name_ordered_intro with (ns := emitted_names dir).
  - apply emitted_names_ordered.
  - intros n Hn. now apply emitted_names_In in Hn as [Hn _].
  - eapply Forall3_impl; [|exact H].
    intros item node link. unfold emits.
    destruct (os_path_isdir (child dir item)).
    + intros (sn & si & Hrec & -> & ->). right. split; [reflexivity|].
      exists sn, si. auto.
    + intros [-> ->]. left. auto.
Qed.

(** * The renderer keeps the order of the tree *)

Lemma render_link_section title children indent_level lines :
  render_link (IdxSection title children) indent_level lines
  = render_links children (S indent_level)
      (lines ++ [(nl ++ PyStr.repeat "#"%char indent_level ++ " " ++ title
                     ++ nl)%string]).
Proof.
  cbn [render_link].
  match goal with |- _ ?acc = _ => generalize acc end.
  induction children as [|c r IH]; intros acc; simpl; [reflexivity|apply IH].
Qed.

Lemma entries_of_section title children :
  entries_of (IdxSection title children) = entries_of_list children.
Proof. reflexivity. Qed.

Lemma is_item_line_item (e : string * string) :
  is_item_line (item_line e) = true.
Proof.
  unfold is_item_line, item_line, PyStr.startswith. simpl.
  match goal with |- String.prefix _ ?s = true => now destruct s end.
Qed.

Lemma is_item_line_heading (n : nat) (title : string) :
  is_item_line (nl ++ PyStr.repeat "#"%char n ++ " " ++ title ++ nl) = false.
Proof. reflexivity. Qed.

Lemma render_link_items (l : IndexLink) :
  forall indent_level lines,
    filter is_item_line (render_link l indent_level lines)
    = filter is_item_line lines ++ map item_line (entries_of l).
Proof.
  induction l as [title path|title children IH] using IndexLink_nested_ind;
    intros lvl lines.
  - cbn [render_link entries_of map]. rewrite filter_app. cbn [filter].
    change ("- [" ++ title ++ "](" ++ path ++ ")")%string
      with (item_line (title, path)).
    now rewrite is_item_line_item.
  - rewrite render_link_section, entries_of_section.
    assert (forall acc,
              filter is_item_line (render_links children (S lvl) acc)
              = filter is_item_line acc
                ++ map item_line (entries_of_list children))
      as Hcs.
    { induction IH as [|c r Hc _ IHr]; intros acc; simpl.
      - now rewrite app_nil_r.
      - rewrite IHr, Hc, map_app. now rewrite app_assoc. }
    rewrite Hcs, filter_app. cbn [filter].
    rewrite is_item_line_heading. now rewrite app_nil_r.
Qed.

Lemma render_links_items (links : list IndexLink) :
  forall indent_level lines,
    filter is_item_line (render_links links indent_level lines)
    = filter is_item_line lines ++ map item_line (entries_of_list links).
Proof.
  induction links as [|l r IH]; intros lvl lines; simpl.
  - now rewrite app_nil_r.
  - rewrite IH, render_link_items, map_app. now rewrite app_assoc.
Qed.

(** * The loop of [build_nav] *)

Section BuildLoopFacts.

Variable rec : option fsnode -> string -> result (list NavNode).
Variable dir : option fsnode.
Variable rel : string.

Lemma build_items_acc (entries : list string) :
  forall nav,
    build_items rec dir rel entries nav
    = n <- build_items rec dir rel entries [] ;; Ok (nav ++ n).
Proof.
  induction entries as [|entry rest IH]; intros nav; simpl.
  - now rewrite app_nil_r.
  - destruct (os_path_isdir (child dir entry)).
    + destruct (rec (child dir entry) (relpath_below rel entry))
        as [[|c cs]|e]; simpl; [apply IH| |reflexivity].
      rewrite IH. rewrite (IH [_]).
      destruct (build_items rec dir rel rest []) as [n|e]; simpl;
        [|reflexivity].
      now rewrite <- app_assoc.
    + destruct (PyStr.endswith entry ".md"); [|apply IH].
      rewrite IH. rewrite (IH [_]).
      destruct (build_items rec dir rel rest []) as [n|e]; simpl;
        [|reflexivity].
      now rewrite <- app_assoc.
Qed.

Lemma build_items_emits (entries : list string) :
  forall nav,
    build_items rec dir rel entries [] = Ok nav ->
    Forall2 (emits_b rec dir rel) (filter (emitting_b rec dir rel) entries) nav.
Proof.
  induction entries as [|entry rest IH]; intros nav; simpl.
  - intros [= <-]. constructor.
  - unfold emitting_b at 1, emits_b at 1.
    destruct (os_path_isdir (child dir entry)) eqn:D.
    + destruct (rec (child dir entry) (relpath_below rel entry))
        as [[|c cs]|e] eqn:R; simpl; [apply IH| |discriminate].
      rewrite build_items_acc.
      destruct (build_items rec dir rel rest []) as [n|e]; simpl;
        [|discriminate].
      intros [= <-]. constructor; [|now apply IH].
      unfold emits_b. rewrite D. exists (c :: cs). now rewrite R.
    + destruct (PyStr.endswith entry ".md"); simpl; [|apply IH].
      rewrite build_items_acc.
      destruct (build_items rec dir rel rest []) as [n|e]; simpl;
        [|discriminate].
      intros [= <-]. constructor; [|now apply IH].
      unfold emits_b. now rewrite D.
Qed.

End BuildLoopFacts.

Lemma build_nav_level (fuel : nat) dir rel nav :
  build_nav (S fuel) dir rel = Ok nav ->
  Forall2 (emits_b (build_nav fuel) dir rel)
          (built_names (build_nav fuel) dir rel) nav.
Proof.
  destruct dir as [[c|es]|]; simpl; try discriminate.
  apply build_items_emits.
Qed.

Lemma built_names_ordered rec dir rel :
  StronglySorted str_le (built_names rec dir rel).
Proof.
  unfold built_names. destruct dir as [[c|es]|]; try constructor.
  apply filter_ordered, sorted_ordered.
Qed.

Lemma built_names_In rec dir rel (entry : string) :
  In entry (built_names rec dir rel) <->
  (exists es, dir = Some (FDir es) /\ In entry (map fst es))
  /\ emitting_b rec dir rel entry = true.
Proof.
  unfold built_names. destruct dir as [[c|es]|].
  - split; [contradiction|]. now intros [(es & [=] & _) _].
  - rewrite filter_In, sorted_In. split.
    + intros [Hin He]. eauto.
    + intros [(es' & [= <-] & Hin) He]. auto.
  - split; [contradiction|]. now intros [(es & [=] & _) _].
Qed.

Lemma no_empty_group_Group title children :
  no_empty_group (NavGroup title children) = true <->
  children <> [] /\ Forall (fun n => no_empty_group n = true) children.
Proof.
  assert (forall l,
            (fix all (l : list NavNode) : bool :=
               match l with
               | [] => true
               | x :: r => no_empty_group x && all r
               end) l = true
            <-> Forall (fun n => no_empty_group n = true) l) as Hall.
  { induction l as [|x r IHr]; [split; auto|].
    rewrite andb_true_iff, IHr. split.
    - intros [Hx Hr]. now constructor.
    - now inversion 1. }
  cbn [no_empty_group]. rewrite andb_true_iff, Hall.
  destruct children as [|c cs]; split.
  - now intros [? _].
  - now intros [? _].
  - intros [_ H]. split; [discriminate|exact H].
  - intros [_ H]. split; [reflexivity|exact H].
Qed.

Lemma build_nav_no_empty_group (fuel : nat) :
  forall dir rel nav,
    build_nav fuel dir rel = Ok nav ->
    Forall (fun n => no_empty_group n = true) nav.
Proof.
  induction fuel as [|fuel IH]; intros dir rel nav H; [discriminate|].
  apply build_nav_level in H.
  induction H as [|entry node ns nav He _ IHF]; constructor; [|exact IHF].
  unfold emits_b in He. destruct (os_path_isdir (child dir entry)).
  - destruct He as (children & Hrec & Hne & ->).
    apply no_empty_group_Group. split; [exact Hne|]. eapply IH; eassumption.
  - now subst node.
Qed.

(** * Dicts and directory listings *)

Lemma scalar_eqb_eq (a b : scalar) : scalar_eqb a b = true <-> a = b.
Proof.
  destruct a, b; simpl; split; try discriminate; try reflexivity.
  - intros H. apply Bool.eqb_prop in H. now subst.
  - intros [= ->]. apply Bool.eqb_reflx.
  - intros H. apply Z.eqb_eq in H. now subst.
  - intros [= ->]. apply Z.eqb_refl.
  - intros H. apply String.eqb_eq in H. now subst.
  - intros [= ->]. apply String.eqb_refl.
Qed.

Lemma scalar_eqb_refl (a : scalar) : scalar_eqb a a = true.
Proof. now apply scalar_eqb_eq. Qed.

Lemma scalar_eqb_neq (a b : scalar) : a <> b -> scalar_eqb a b = false.
Proof.
  intros H. destruct (scalar_eqb a b) eqn:E; [|reflexivity].
  now apply scalar_eqb_eq in E.
Qed.

Lemma dict_get_set_same k v d : dict_get k (dict_set k v d) = Some v.
Proof.
  induction d as [|[k' v'] r IH]; simpl.
  - now rewrite scalar_eqb_refl.
  - destruct (scalar_eqb k' k) eqn:E; simpl.
    + now rewrite scalar_eqb_refl.
    + now rewrite E.
Qed.

Lemma dict_get_set_other k k' v d :
  k' <> k -> dict_get k' (dict_set k v d) = dict_get k' d.
Proof.
  intros Hne. induction d as [|[k0 v0] r IH]; simpl.
  - now rewrite scalar_eqb_neq by congruence.
  - destruct (scalar_eqb k0 k) eqn:E; simpl.
    + apply scalar_eqb_eq in E. subst k0.
      now rewrite scalar_eqb_neq by congruence.
    + now rewrite IH.
Qed.

Lemma dict_set_idem k v d : dict_set k v (dict_set k v d) = dict_set k v d.
Proof.
  induction d as [|[k' v'] r IH]; simpl.
  - now rewrite scalar_eqb_refl.
  - destruct (scalar_eqb k' k) eqn:E; simpl.
    + now rewrite scalar_eqb_refl.
    + now rewrite E, IH.
Qed.

Lemma dict_set_other_keys k v d :
  other_keys k (dict_set k v d) = other_keys k d.
Proof.
  unfold other_keys. induction d as [|[k' v'] r IH]; simpl.
  - now rewrite scalar_eqb_refl.
  - destruct (scalar_eqb k' k) eqn:E; simpl.
    + now rewrite scalar_eqb_refl.
    + now rewrite E, IH.
Qed.

Lemma dict_set_new k v d :
  dict_get k d = None -> dict_set k v d = d ++ [(k, v)].
Proof.
  induction d as [|[k' v'] r IH]; simpl; [reflexivity|].
  destruct (scalar_eqb k' k); [discriminate|].
  intros H. now rewrite IH.
Qed.

Lemma set_entry_idem name x es :
  set_entry name x (set_entry name x es) = set_entry name x es.
Proof.
  induction es as [|[n y] r IH]; simpl.
  - now rewrite String.eqb_refl.
  - destruct (String.eqb n name) eqn:E; simpl; rewrite E; [reflexivity|].
    now rewrite IH.
Qed.

Lemma lookup_set_entry_same name x es :
  lookup name (set_entry name x es) = Some x.
Proof.
  induction es as [|[n y] r IH]; simpl.
  - now rewrite String.eqb_refl.
  - destruct (String.eqb n name) eqn:E; simpl; now rewrite E.
Qed.

Lemma lookup_set_entry_other name x es item :
  item <> name -> lookup item (set_entry name x es) = lookup item es.
Proof.
  intros Hne. induction es as [|[n y] r IH]; simpl.
  - destruct (String.eqb_spec name item); [congruence|reflexivity].
  - destruct (String.eqb_spec n name) as [->|Hn]; simpl.
    + destruct (String.eqb_spec name item); [congruence|reflexivity].
    + now rewrite IH.
Qed.

Lemma set_entry_names name x es :
  filter (fun n => negb (String.eqb n name)) (map fst (set_entry name x es))
  = filter (fun n => negb (String.eqb n name)) (map fst es).
Proof.
  induction es as [|[n y] r IH]; simpl.
  - now rewrite String.eqb_refl.
  - destruct (String.eqb n name) eqn:E; simpl; rewrite E; simpl;
      [reflexivity|now rewrite IH].
Qed.

(** * Writing the index does not change what the scan returns *)

Lemma is_doc_index : is_doc INDEX_NAME = false.
Proof. reflexivity. Qed.

Lemma scan_docs_set_index (fuel : nat) es content base :
  os_path_isdir (lookup INDEX_NAME es) = false ->
  scan_docs fuel (Some (FDir (set_entry INDEX_NAME (FFile content) es))) base
  = scan_docs fuel (Some (FDir es)) base.
Proof.
  intros Hfile. destruct fuel as [|fuel]; [reflexivity|].
  cbn [scan_docs os_listdir rbind].
  set (p := fun n => negb (String.eqb n INDEX_NAME)).
  rewrite <- (scan_items_filter _ _ _ p) with (items := sorted (map fst es)).
  - rewrite <- (scan_items_filter _ _ _ p)
      with (items := sorted (map fst (set_entry _ _ _))).
    + rewrite !filter_sorted. unfold p. rewrite set_entry_names.
      apply scan_items_ext. intros item Hin _.
      apply sorted_In, filter_In in Hin as [_ Hne].
      apply negb_true_iff, String.eqb_neq in Hne.
      cbn [child]. rewrite lookup_set_entry_other by exact Hne.
      split; reflexivity.
    + intros item _ Hp. unfold p in Hp.
      apply negb_false_iff, String.eqb_eq in Hp. subst item.
      unfold emitting. cbn [child]. rewrite lookup_set_entry_same.
      reflexivity.
  - intros item _ Hp. unfold p in Hp.
    apply negb_false_iff, String.eqb_eq in Hp. subst item.
    unfold emitting. cbn [child]. rewrite Hfile. reflexivity.
Qed.

(** * The scans return when the recursion limit allows *)

Lemma depth_dir (es : listing) : depth (FDir es) = S (deepest es).
Proof. reflexivity. Qed.

Lemma lookup_depth (item : string) (es : listing) (y : fsnode) :
  lookup item es = Some y -> depth y <= deepest es.
Proof.
  induction es as [|[n x] rest IH]; simpl; [discriminate|].
  destruct (String.eqb n item).
  - intros [= ->]. apply Nat.le_max_l.
  - intros H. apply IH in H. lia.
Qed.

Lemma child_depth (es : listing) (item : string) :
  os_path_isdir (child (Some (FDir es)) item) = true ->
  exists sub,
    child (Some (FDir es)) item = Some (FDir sub)
    /\ depth (FDir sub) <= deepest es.
Proof.
  cbn [child]. destruct (lookup item es) as [[c|sub]|] eqn:Hl;
    try discriminate.
  intros _. exists sub. split; [reflexivity|].
  now apply lookup_depth in Hl.
Qed.

Lemma scan_items_total rec dir base (items : list string) :
  (forall item, os_path_isdir (child dir item) = true ->
     exists r, rec (child dir item) (OsPath.join base item) = Ok r) ->
  forall nav index_links,
    exists r, scan_items rec dir base items nav index_links = Ok r.
Proof.
  intros Hrec. induction items as [|item rest IH]; intros nav idx; simpl;
    [eauto|].
  destruct (hidden item); [apply IH|].
  destruct (os_path_isdir (child dir item)) eqn:D.
  - destruct (Hrec item D) as [[sn si] ->]. simpl. apply IH.
  - destruct (is_doc item); apply IH.
Qed.

Lemma scan_docs_total (fuel : nat) :
  forall es base,
    depth (FDir es) <= fuel ->
    exists r, scan_docs fuel (Some (FDir es)) base = Ok r.
Proof.
  induction fuel as [|fuel IH]; intros es base Hd;
    [rewrite depth_dir in Hd; lia|].
  cbn [scan_docs os_listdir rbind]. apply scan_items_total.
  intros item D. apply child_depth in D as (sub & -> & Hs).
  apply IH. rewrite depth_dir in Hd. lia.
Qed.

Lemma build_items_total rec dir rel (entries : list string) :
  (forall entry, os_path_isdir (child dir entry) = true ->
     exists r, rec (child dir entry) (relpath_below rel entry) = Ok r) ->
  forall nav, exists r, build_items rec dir rel entries nav = Ok r.
Proof.
  intros Hrec. induction entries as [|entry rest IH]; intros nav; simpl;
    [eauto|].
  destruct (os_path_isdir (child dir entry)) eqn:D.
  - destruct (Hrec entry D) as [[|c cs] ->]; simpl; apply IH.
  - destruct (PyStr.endswith entry ".md"); apply IH.
Qed.

Lemma build_nav_total (fuel : nat) :
  forall es rel,
    depth (FDir es) <= fuel ->
    exists r, build_nav fuel (Some (FDir es)) rel = Ok r.
Proof.
  induction fuel as [|fuel IH]; intros es rel Hd;
    [rewrite depth_dir in Hd; lia|].
  cbn [build_nav os_listdir rbind]. apply build_items_total.
  intros entry D. apply child_depth in D as (sub & -> & Hs).
  apply IH. rewrite depth_dir in Hd. lia.
Qed.

(** * Runs of the two programs *)

Lemma update_mkdocs_yml_run (nav : list NavNode) (w : world) :
  update_mkdocs_yml nav w
  = match starting_config w with
    | Err e => (w, Err e)
    | Ok config =>
        match setitem config "nav" (nav_value nav) with
        | Err e => (w, Err e)
        | Ok config' => dump_config config' w
        end
    end.
Proof.
  unfold update_mkdocs_yml, starting_config, bind, config_exists, load_config,
    lift, ret.
  destruct (mkdocs w) as [[doc|]|]; try reflexivity;
    destruct (setitem _ _ _); reflexivity.
Qed.

Lemma main_run (limit : nat) (w : world) :
  main limit w
  = match scan_docs limit (docs w) "" with
    | Err e => (w, Err e)
    | Ok (nav, index_links) =>
        match update_mkdocs_yml nav w with
        | (w1, Err e) => (w1, Err e)
        | (w1, Ok _) =>
            match makedirs_docs w1 with
            | (w2, Err e) => (w2, Err e)
            | (w2, Ok _) => write_index (generate_index_md index_links 2) w2
            end
        end
    end.
Proof.
  unfold main, bind, lift.
  destruct (scan_docs limit (docs w) "") as [[nav idx]|e]; reflexivity.
Qed.

Lemma update_mkdocs_yml_ok nav w m :
  starting_config w = Ok (YMap m) ->
  mkdocs_writable w = true ->
  update_mkdocs_yml nav w
  = (mkWorld (docs w)
             (Some (Parses (YMap (dict_set (SStr "nav") (nav_value nav) m))))
             true, Ok tt).
Proof.
  intros Hc Hw. rewrite update_mkdocs_yml_run, Hc. simpl.
  unfold dump_config. now rewrite Hw.
Qed.

(** A failing configuration step leaves the working directory as it was. *)
Lemma update_mkdocs_yml_err nav w w1 e :
  update_mkdocs_yml nav w = (w1, Err e) -> w1 = w.
Proof.
  rewrite update_mkdocs_yml_run.
  destruct (starting_config w) as [config|e0]; [|now intros [= <- _]].
  destruct (setitem config "nav" (nav_value nav)) as [config'|e0];
    [|now intros [= <- _]].
  unfold dump_config. destruct (mkdocs_writable w); [discriminate|].
  now intros [= <- _].
Qed.

Lemma update_mkdocs_yml_ok_inv nav w w1 :
  update_mkdocs_yml nav w = (w1, Ok tt) ->
  exists m,
    starting_config w = Ok (YMap m)
    /\ mkdocs_writable w = true
    /\ w1 = mkWorld (docs w)
              (Some (Parses (YMap (dict_set (SStr "nav") (nav_value nav) m))))
              true.
Proof.
  rewrite update_mkdocs_yml_run.
  destruct (starting_config w) as [config|e0]; [|discriminate].
  destruct config as [s|items|m]; simpl; try discriminate.
  unfold dump_config. destruct (mkdocs_writable w) eqn:Hw; [|discriminate].
  intros [= <-]. exists m. auto.
Qed.

Lemma scan_docs_ok_dir fuel dir base r :
  scan_docs fuel dir base = Ok r -> exists es, dir = Some (FDir es).
Proof.
  destruct fuel; [discriminate|].
  destruct dir as [[c|es]|]; simpl; try discriminate. eauto.
Qed.

Lemma main_ok limit w es nav index_links m :
  docs w = Some (FDir es) ->
  scan_docs limit (docs w) "" = Ok (nav, index_links) ->
  starting_config w = Ok (YMap m) ->
  mkdocs_writable w = true ->
  os_path_isdir (lookup INDEX_NAME es) = false ->
  main limit w
  = (mkWorld
       (Some (FDir (set_entry INDEX_NAME
                      (FFile (generate_index_md index_links 2)) es)))
       (Some (Parses (YMap (dict_set (SStr "nav") (nav_value nav) m))))
       true, Ok tt).
Proof.
  intros Hd Hs Hc Hw Hi.
  rewrite main_run, Hs, (update_mkdocs_yml_ok nav w m Hc Hw).
  unfold makedirs_docs, write_index. simpl. rewrite Hd. simpl.
  destruct (lookup INDEX_NAME es) as [[c|sub]|]; try reflexivity.
  simpl in Hi. discriminate Hi.
Qed.

Lemma main_ok_inv limit w w1 :
  main limit w = (w1, Ok tt) ->
  exists es nav index_links m,
    docs w = Some (FDir es)
    /\ scan_docs limit (docs w) "" = Ok (nav, index_links)
    /\ starting_config w = Ok (YMap m)
    /\ mkdocs_writable w = true
    /\ os_path_isdir (lookup INDEX_NAME es) = false
    /\ w1 = mkWorld
              (Some (FDir (set_entry INDEX_NAME
                             (FFile (generate_index_md index_links 2)) es)))
              (Some (Parses (YMap (dict_set (SStr "nav") (nav_value nav) m))))
              true.
Proof.
  rewrite main_run.
  destruct (scan_docs limit (docs w) "") as [[nav idx]|e] eqn:Hs;
    [|discriminate].
  destruct (scan_docs_ok_dir _ _ _ _ Hs) as [es Hd].
  destruct (update_mkdocs_yml nav w) as [w' [[]|e]] eqn:Hu; [|discriminate].
  apply update_mkdocs_yml_ok_inv in Hu as (m & Hc & Hw & ->).
  unfold makedirs_docs, write_index. simpl. rewrite Hd. simpl.
  destruct (lookup INDEX_NAME es) as [[c|sub]|] eqn:Hl; try discriminate;
    intros [= <-]; exists es, nav, idx, m; rewrite ?Hl; auto 10.
Qed.

Lemma update_mkdocs_yaml_run (limit : nat) (w : world) :
  update_mkdocs_yaml limit w
  = match mkdocs w with
    | None => (w, Err FileNotFoundError)
    | Some Malformed => (w, Err YAMLError)
    | Some (Parses config) =>
        match build_nav limit (docs w) "" with
        | Err e => (w, Err e)
        | Ok nav =>
            match setitem config "nav" (nav_value nav) with
            | Err e => (w, Err e)
            | Ok config' => dump_config config' w
            end
        end
    end.
Proof.
  unfold update_mkdocs_yaml, bind, load_config, lift.
  destruct (mkdocs w) as [[doc|]|]; reflexivity.
Qed.

(** * Casing *)


Lemma smap_smap (f g : ascii -> ascii) (s : string) :
  PyStr.smap f (PyStr.smap g s) = PyStr.smap (fun c => f (g c)) s.
Proof. induction s as [|c r IH]; simpl; [reflexivity|now rewrite IH]. Qed.






Lemma format_title_smap (name : string) :
  format_title name = PyStr.title (PyStr.smap unseparate name).
Proof. unfold format_title, PyStr.replace. now rewrite smap_smap. Qed.





(** * Titles (C5) *)




(** * Hidden entries (C1) *)

(** C1, as amended.  [scan_docs] of [generate_nav_and_index.py] emits no
    node and no link for an entry whose name starts with a dot or an
    underscore, at any depth: what it returns is what it returns on the
    tree from which all those entries are removed, and the nodes and links
    of every level stem from names that start with neither. *)
Theorem scan_docs_skips_hidden (fuel : nat) (dir : option fsnode)
    (base : string) :
  scan_docs fuel (option_map prune_hidden dir) base = scan_docs fuel dir base
  /\ Forall (fun item => hidden item = false) (emitted_names dir)
  /\ (forall nav index_links,
        scan_docs (S fuel) dir base = Ok (nav, index_links) ->
        Forall3 (emits (scan_docs fuel) dir base) (emitted_names dir)
                nav index_links).
Proof.
  split; [apply scan_docs_prune|split].
  - apply Forall_forall. intros item Hin.
    now apply emitted_names_In in Hin as (_ & Hh & _).
  - intros nav idx. apply scan_docs_level.
Qed.

Lemma scan_docs_skips_hidden_witness :
  Forall3 (emits (scan_docs 2) (Some example_docs) "")
    (emitted_names (Some example_docs))
    [NavGroup "Empty" []; NavGroup "Guide" [NavLeaf "Intro" "guide/intro.md"]]
    [IdxSection "Empty" [];
     IdxSection "Guide" [IdxEntry "Intro" "guide/intro.md"]].
Proof.
  exact (proj2 (proj2 (scan_docs_skips_hidden 2 (Some example_docs) ""))
           _ _ eq_refl).
Defined.

(** C1 as stated fails for [build_nav] of [update_nav.py], which has no
    test on the first character of a name. *)
Lemma build_nav_lists_hidden :
  hidden "_draft.md" = true
  /\ hidden ".hidden" = true
  /\ build_nav 3 (Some example_docs) ""
     = Ok [NavGroup ".Hidden" [NavLeaf "Note" ".hidden/note.md"];
           NavGroup "Guide" [NavLeaf " Draft" "guide/_draft.md";
                             NavLeaf "Intro" "guide/intro.md"];
           NavLeaf "Index" "index.md"]
  /\ build_nav 3 (option_map prune_hidden (Some example_docs)) ""
     <> build_nav 3 (Some example_docs) "".
Proof. repeat split. discriminate. Qed.

(** * Empty directories (C2) *)

(** C2, as amended.  [build_nav] of [update_nav.py] omits a directory whose
    recursive result is empty: no group without children occurs in what it
    returns, at any depth.  [scan_docs] of [generate_nav_and_index.py] has
    no such test: every sub-directory whose name starts with neither a dot
    nor an underscore gets a group and a section, whatever the scan of the
    sub-directory returns. *)
Theorem empty_directories :
  (forall fuel dir rel nav,
     build_nav fuel dir rel = Ok nav ->
     Forall (fun n => no_empty_group n = true) nav)
  /\ (forall fuel dir base nav index_links es item,
        scan_docs (S fuel) dir base = Ok (nav, index_links) ->
        dir = Some (FDir es) -> In item (map fst es) ->
        hidden item = false -> os_path_isdir (child dir item) = true ->
        exists sub_nav sub_index,
          scan_docs fuel (child dir item) (OsPath.join base item)
          = Ok (sub_nav, sub_index)
          /\ In (NavGroup (format_title item) sub_nav) nav
          /\ In (IdxSection (format_title item) sub_index) index_links).
Proof.
  split; [intros fuel; apply build_nav_no_empty_group|].
  intros fuel dir base nav idx es item Hs Hd Hin Hh Hdir.
  apply scan_docs_level in Hs.
  assert (In item (emitted_names dir)) as Hem
    by (apply emitted_names_In; eauto 6).
  destruct (Forall3_In _ _ _ _ _ Hs Hem) as (node & link & Hn & Hl & He).
  unfold emits in He. rewrite Hdir in He.
  destruct He as (sn & si & Hrec & -> & ->). eauto.
Qed.

Lemma empty_directories_witness :
  Forall (fun n => no_empty_group n = true)
    [NavGroup ".Hidden" [NavLeaf "Note" ".hidden/note.md"];
     NavGroup "Guide" [NavLeaf " Draft" "guide/_draft.md";
                       NavLeaf "Intro" "guide/intro.md"];
     NavLeaf "Index" "index.md"]
  /\ exists sub_nav sub_index,
       scan_docs 2 (child (Some example_docs) "empty") (OsPath.join "" "empty")
       = Ok (sub_nav, sub_index)
       /\ In (NavGroup (format_title "empty") sub_nav)
             [NavGroup "Empty" [];
              NavGroup "Guide" [NavLeaf "Intro" "guide/intro.md"]]
       /\ In (IdxSection (format_title "empty") sub_index)
             [IdxSection "Empty" [];
              IdxSection "Guide" [IdxEntry "Intro" "guide/intro.md"]].
Proof.
  split.
  - exact (proj1 empty_directories 3 (Some example_docs) "" _ eq_refl).
  - refine (proj2 empty_directories 2 (Some example_docs) "" _ _ _ "empty"
              eq_refl eq_refl _ eq_refl eq_refl).
    simpl. tauto.
Defined.

(** C2 as stated fails for [scan_docs]: a directory that is empty, or whose
    entries are all skipped, gets a group and a section without children. *)
Lemma scan_docs_emits_empty_group :
  scan_docs 3
    (Some (FDir [("drafts", FDir [("_wip.md", FFile "")]); ("empty", FDir [])]))
    ""
  = Ok ([NavGroup "Drafts" []; NavGroup "Empty" []],
        [IdxSection "Drafts" []; IdxSection "Empty" []])
  /\ no_empty_group (NavGroup "Empty" []) = false.
Proof. split; reflexivity. Qed.

(** * Which files are listed (C3) *)

(** C3, as amended.  In [scan_docs] of [generate_nav_and_index.py], a file
    whose name starts with neither a dot nor an underscore gets a leaf and
    an entry if and only if its name ends in [.md] and its lower-cased name
    is not [index.md], so the generated index is never listed.  In
    [build_nav] of [update_nav.py], a file gets a leaf if and only if its
    name ends in [.md]; [index.md] is listed there. *)
Theorem file_inclusion :
  (forall fuel dir base nav index_links,
     scan_docs (S fuel) dir base = Ok (nav, index_links) ->
     Forall3 (emits (scan_docs fuel) dir base) (emitted_names dir)
             nav index_links
     /\ forall es item,
          dir = Some (FDir es) -> In item (map fst es) ->
          os_path_isdir (child dir item) = false -> hidden item = false ->
          (In item (emitted_names dir)
           <-> PyStr.endswith item ".md" = true
               /\ PyStr.lower item <> INDEX_NAME))
  /\ (forall fuel dir rel nav,
        build_nav (S fuel) dir rel = Ok nav ->
        Forall2 (emits_b (build_nav fuel) dir rel)
                (built_names (build_nav fuel) dir rel) nav
        /\ forall es entry,
             dir = Some (FDir es) -> In entry (map fst es) ->
             os_path_isdir (child dir entry) = false ->
             (In entry (built_names (build_nav fuel) dir rel)
              <-> PyStr.endswith entry ".md" = true)).
Proof.
  split.
  - intros fuel dir base nav idx Hs. split; [now apply scan_docs_level|].
    intros es item Hd Hin Hfile Hh.
    rewrite emitted_names_In, Hfile. unfold is_doc.
    rewrite andb_true_iff, negb_true_iff, String.eqb_neq. split.
    + intros (_ & _ & [H|H]); [discriminate|exact H].
    + intros H. repeat split; eauto.
  - intros fuel dir rel nav Hb. split; [now apply build_nav_level|].
    intros es entry Hd Hin Hfile.
    rewrite built_names_In. unfold emitting_b. rewrite Hfile. split.
    + now intros [_ H].
    + intros H. split; eauto.
Qed.

Lemma file_inclusion_witness :
  (In "intro.md" (emitted_names (child (Some example_docs) "guide"))
   <-> PyStr.endswith "intro.md" ".md" = true
       /\ PyStr.lower "intro.md" <> INDEX_NAME)
  /\ (In "index.md" (built_names (build_nav 2) (Some example_docs) "")
      <-> PyStr.endswith "index.md" ".md" = true).
Proof.
  split.
  - refine (proj2 (proj1 file_inclusion 1 (child (Some example_docs) "guide")
                     "guide" _ _ eq_refl)
                  _ "intro.md" eq_refl _ eq_refl eq_refl).
    simpl. tauto.
  - refine (proj2 (proj2 file_inclusion 2 (Some example_docs) "" _ eq_refl)
                  _ "index.md" eq_refl _ eq_refl).
    simpl. tauto.
Defined.

(** C3 as stated fails for [build_nav], which lists the index file. *)
Lemma build_nav_lists_index :
  PyStr.lower "index.md" = INDEX_NAME
  /\ build_nav 1 (Some (FDir [("index.md", FFile "")])) ""
     = Ok [NavLeaf "Index" "index.md"].
Proof. split; reflexivity. Qed.

(** * Order (C8) *)

(** C8.  In what [scan_docs] returns, the nodes of the navigation tree and
    the links of the index tree stem, level by level and at every depth,
    from one list of raw names in ascending code-point order.  The renderer
    appends the list items in the order of the index tree.  The nodes
    [build_nav] returns for a directory stem from an ascending list of raw
    names as well. *)
Theorem children_in_name_order :
  (forall fuel dir base nav index_links,
     scan_docs fuel dir base = Ok (nav, index_links) ->
     name_ordered dir base nav index_links)
  /\ (forall index_links level lines,
        filter is_item_line (render_links index_links level lines)
        = filter is_item_line lines
          ++ map item_line (entries_of_list index_links))
  /\ (forall fuel dir rel nav,
        build_nav (S fuel) dir rel = Ok nav ->
        StronglySorted str_le (built_names (build_nav fuel) dir rel)
        /\ Forall2 (emits_b (build_nav fuel) dir rel)
                   (built_names (build_nav fuel) dir rel) nav).
Proof.
  split; [|split].
  - intros fuel. apply scan_docs_name_ordered.
  - intros idx level lines. apply render_links_items.
  - intros fuel dir rel nav Hb.
    split; [apply built_names_ordered|now apply build_nav_level].
Qed.

Lemma children_in_name_order_witness :
  name_ordered (Some example_docs) ""
    [NavGroup "Empty" []; NavGroup "Guide" [NavLeaf "Intro" "guide/intro.md"]]
    [IdxSection "Empty" [];
     IdxSection "Guide" [IdxEntry "Intro" "guide/intro.md"]]
  /\ StronglySorted str_le (built_names (build_nav 2) (Some example_docs) "").
Proof.
  split.
  - exact (proj1 children_in_name_order 3 (Some example_docs) "" _ _ eq_refl).
  - exact (proj1 (proj2 (proj2 children_in_name_order) 2 (Some example_docs) ""
                    _ eq_refl)).
Defined.

(** * The configuration keys (C6, C7, C10) *)

Lemma starting_config_mapping (w : world) (m : list (scalar * yaml)) :
  mkdocs w = Some (Parses (YMap m)) -> starting_config w = Ok (YMap m).
Proof.
  unfold starting_config. intros ->. now destruct m.
Qed.

Lemma dict_set_nav_only nav m :
  nav_only_change nav m (dict_set (SStr "nav") (nav_value nav) m).
Proof.
  repeat split.
  - apply dict_get_set_same.
  - intros k Hk. now apply dict_get_set_other.
  - apply dict_set_other_keys.
  - apply dict_set_new.
Qed.

(** C6.  On a configuration that is a mapping, the configuration step of
    either program changes the [nav] key only: every other key keeps its
    value and its place among the other keys, [nav] holds the serialized
    tree, and a [nav] that was not there is appended. *)
Theorem config_keys_preserved (w : world) (m : list (scalar * yaml)) :
  mkdocs w = Some (Parses (YMap m)) ->
  mkdocs_writable w = true ->
  (forall nav,
     exists m',
       update_mkdocs_yml nav w
       = (mkWorld (docs w) (Some (Parses (YMap m'))) true, Ok tt)
       /\ nav_only_change nav m m')
  /\ (forall limit nav,
        build_nav limit (docs w) "" = Ok nav ->
        exists m',
          update_mkdocs_yaml limit w
          = (mkWorld (docs w) (Some (Parses (YMap m'))) true, Ok tt)
          /\ nav_only_change nav m m').
Proof.
  intros Hm Hw. split.
  - intros nav. exists (dict_set (SStr "nav") (nav_value nav) m).
    split; [|apply dict_set_nav_only].
    apply update_mkdocs_yml_ok; [now apply starting_config_mapping|exact Hw].
  - intros limit nav Hb. exists (dict_set (SStr "nav") (nav_value nav) m).
    split; [|apply dict_set_nav_only].
    rewrite update_mkdocs_yaml_run, Hm, Hb. simpl.
    unfold dump_config. now rewrite Hw.
Qed.

Lemma config_keys_preserved_witness :
  exists m',
    update_mkdocs_yml [NavLeaf "Intro" "intro.md"] example_world
    = (mkWorld (docs example_world) (Some (Parses (YMap m'))) true, Ok tt)
    /\ nav_only_change [NavLeaf "Intro" "intro.md"] example_config m'.
Proof.
  exact (proj1 (config_keys_preserved example_world example_config
                  eq_refl eq_refl) [NavLeaf "Intro" "intro.md"]).
Defined.

Lemma main_from_empty limit w es :
  starting_config w = Ok (YMap []) ->
  mkdocs_writable w = true ->
  docs w = Some (FDir es) ->
  depth (FDir es) <= limit ->
  os_path_isdir (lookup INDEX_NAME es) = false ->
  exists nav index_links,
    scan_docs limit (docs w) "" = Ok (nav, index_links)
    /\ main limit w
       = (mkWorld
            (Some (FDir (set_entry INDEX_NAME
                           (FFile (generate_index_md index_links 2)) es)))
            (Some (Parses (YMap [(SStr "nav", nav_value nav)])))
            true, Ok tt).
Proof.
  intros Hc Hw Hd Hdepth Hi.
  destruct (scan_docs_total limit es "" Hdepth) as [[nav idx] Hs].
  rewrite <- Hd in Hs. exists nav, idx. split; [exact Hs|].
  now rewrite (main_ok limit w es nav idx [] Hd Hs Hc Hw Hi).
Qed.

(** C7, as amended.  When the configuration file does not exist and can be
    created, [update_mkdocs_yml] of [generate_nav_and_index.py] starts from
    an empty mapping and writes a configuration whose only key is [nav];
    the run of [main] succeeds when the documentation root is a directory
    within the recursion limit and [index.md] is not a directory.
    [update_mkdocs_yaml] of [update_nav.py] opens the file without testing
    for it: it fails with [FileNotFoundError] and writes nothing. *)
Theorem missing_config_starts_empty (w : world) :
  mkdocs w = None ->
  mkdocs_writable w = true ->
  (forall nav,
     update_mkdocs_yml nav w
     = (mkWorld (docs w) (Some (Parses (YMap [(SStr "nav", nav_value nav)])))
                true, Ok tt))
  /\ (forall limit es,
        docs w = Some (FDir es) ->
        depth (FDir es) <= limit ->
        os_path_isdir (lookup INDEX_NAME es) = false ->
        exists nav index_links,
          scan_docs limit (docs w) "" = Ok (nav, index_links)
          /\ main limit w
             = (mkWorld
                  (Some (FDir (set_entry INDEX_NAME
                                 (FFile (generate_index_md index_links 2)) es)))
                  (Some (Parses (YMap [(SStr "nav", nav_value nav)])))
                  true, Ok tt))
  /\ (forall limit, update_mkdocs_yaml limit w = (w, Err FileNotFoundError)).
Proof.
  intros Hm Hw.
  assert (starting_config w = Ok (YMap [])) as Hc
    by (unfold starting_config; now rewrite Hm).
  split; [|split].
  - intros nav. now rewrite (update_mkdocs_yml_ok nav w [] Hc Hw).
  - intros limit es Hd Hdepth Hi.
    now apply main_from_empty.
  - intros limit. now rewrite update_mkdocs_yaml_run, Hm.
Qed.

Lemma missing_config_starts_empty_witness :
  update_mkdocs_yml [NavLeaf "Intro" "intro.md"]
    (mkWorld (Some example_docs) None true)
  = (mkWorld (Some example_docs)
       (Some (Parses (YMap [(SStr "nav",
                             nav_value [NavLeaf "Intro" "intro.md"])])))
       true, Ok tt).
Proof.
  exact (proj1 (missing_config_starts_empty
                  (mkWorld (Some example_docs) None true) eq_refl eq_refl)
               [NavLeaf "Intro" "intro.md"]).
Defined.

(** C7 as stated fails for [update_nav.py]: without a configuration file
    the run raises and no configuration is written. *)
Lemma update_mkdocs_yaml_needs_config :
  update_mkdocs_yaml 3 (mkWorld (Some example_docs) None true)
  = (mkWorld (Some example_docs) None true, Err FileNotFoundError).
Proof. reflexivity. Qed.

(** C10.  When the configuration file exists and loads as the null value,
    [update_mkdocs_yml] goes on from an empty mapping: it writes a
    configuration whose only key is [nav], and the run of [main] succeeds
    when the documentation root is a directory within the recursion limit
    and [index.md] is not a directory. *)
Theorem null_config_is_empty_mapping (w : world) :
  mkdocs w = Some (Parses (YScalar SNull)) ->
  mkdocs_writable w = true ->
  (forall nav,
     update_mkdocs_yml nav w
     = (mkWorld (docs w) (Some (Parses (YMap [(SStr "nav", nav_value nav)])))
                true, Ok tt))
  /\ (forall limit es,
        docs w = Some (FDir es) ->
        depth (FDir es) <= limit ->
        os_path_isdir (lookup INDEX_NAME es) = false ->
        exists nav index_links,
          scan_docs limit (docs w) "" = Ok (nav, index_links)
          /\ main limit w
             = (mkWorld
                  (Some (FDir (set_entry INDEX_NAME
                                 (FFile (generate_index_md index_links 2)) es)))
                  (Some (Parses (YMap [(SStr "nav", nav_value nav)])))
                  true, Ok tt)).
Proof.
  intros Hm Hw.
  assert (starting_config w = Ok (YMap [])) as Hc
    by (unfold starting_config; now rewrite Hm).
  split.
  - intros nav. now rewrite (update_mkdocs_yml_ok nav w [] Hc Hw).
  - intros limit es Hd Hdepth Hi.
    now apply main_from_empty.
Qed.

Lemma null_config_is_empty_mapping_witness :
  exists nav index_links,
    scan_docs 3 (Some (FDir [("intro.md", FFile "")])) ""
    = Ok (nav, index_links)
    /\ main 3 (mkWorld (Some (FDir [("intro.md", FFile "")]))
                       (Some (Parses (YScalar SNull))) true)
       = (mkWorld
            (Some (FDir (set_entry INDEX_NAME
                           (FFile (generate_index_md index_links 2))
                           [("intro.md", FFile "")])))
            (Some (Parses (YMap [(SStr "nav", nav_value nav)])))
            true, Ok tt).
Proof.
  refine (proj2 (null_config_is_empty_mapping
                   (mkWorld (Some (FDir [("intro.md", FFile "")]))
                            (Some (Parses (YScalar SNull))) true)
                   eq_refl eq_refl)
                3 _ eq_refl _ eq_refl).
  simpl. lia.
Defined.

(** * Running twice (C4) *)

Lemma truthy_dict_set k v m : truthy (YMap (dict_set k v m)) = true.
Proof.
  destruct m as [|[k' v'] r]; simpl; [reflexivity|].
  now destruct (scalar_eqb k' k).
Qed.

(** C4.  A second run on what a successful first run left behind returns
    the same trees, and leaves the configuration and the index as they
    are: the [nav] value and the text of the index are those of the first
    run.  The same holds for the run of [update_nav.py]. *)
Theorem generation_idempotent (limit : nat) (w w1 : world) :
  (main limit w = (w1, Ok tt) ->
   main limit w1 = (w1, Ok tt)
   /\ exists nav index_links m,
        scan_docs limit (docs w) "" = Ok (nav, index_links)
        /\ scan_docs limit (docs w1) "" = Ok (nav, index_links)
        /\ mkdocs w1 = Some (Parses (YMap m))
        /\ dict_get (SStr "nav") m = Some (nav_value nav)
        /\ child (docs w1) INDEX_NAME
           = Some (FFile (generate_index_md index_links 2)))
  /\ (update_mkdocs_yaml limit w = (w1, Ok tt) ->
      update_mkdocs_yaml limit w1 = (w1, Ok tt)).
Proof.
  split.
  - intros H.
    apply main_ok_inv in H as (es & nav & idx & m & Hd & Hs & Hc & Hw & Hi & ->).
    rewrite Hd in Hs.
    assert (scan_docs limit
              (Some (FDir (set_entry INDEX_NAME
                             (FFile (generate_index_md idx 2)) es))) ""
            = Ok (nav, idx)) as Hs1
      by (now rewrite scan_docs_set_index).
    split.
    + rewrite (main_ok limit _
                 (set_entry INDEX_NAME (FFile (generate_index_md idx 2)) es)
                 nav idx (dict_set (SStr "nav") (nav_value nav) m)).
      * now rewrite set_entry_idem, dict_set_idem.
      * reflexivity.
      * exact Hs1.
      * unfold starting_config. cbn [mkdocs]. now rewrite truthy_dict_set.
      * reflexivity.
      * now rewrite lookup_set_entry_same.
    + exists nav, idx, (dict_set (SStr "nav") (nav_value nav) m).
      rewrite Hd. cbn [docs mkdocs child].
      rewrite dict_get_set_same, lookup_set_entry_same. auto.
  - rewrite !update_mkdocs_yaml_run.
    destruct (mkdocs w) as [[config|]|] eqn:Hm; try discriminate.
    destruct (build_nav limit (docs w) "") as [nav|e] eqn:Hb; [|discriminate].
    destruct config as [s|items|m]; simpl; try discriminate.
    unfold dump_config. destruct (mkdocs_writable w) eqn:Hw; [|discriminate].
    intros [= <-]. cbn [docs mkdocs mkdocs_writable].
    rewrite Hb. cbn [setitem]. now rewrite dict_set_idem.
Qed.

Lemma generation_idempotent_witness :
  main 3 (fst (main 3 example_world)) = (fst (main 3 example_world), Ok tt)
  /\ update_mkdocs_yaml 3 (fst (update_mkdocs_yaml 3 example_world))
     = (fst (update_mkdocs_yaml 3 example_world), Ok tt).
Proof.
  split.
  - exact (proj1 (proj1 (generation_idempotent 3 example_world
                           (fst (main 3 example_world))) eq_refl)).
  - exact (proj2 (generation_idempotent 3 example_world
                    (fst (update_mkdocs_yaml 3 example_world))) eq_refl).
Defined.

(** * The order of the stages (C9) *)

(** C9.  [main] scans, then updates the configuration, then writes the
    index.  When the scan raises, [main] raises with the working directory
    as it was.  When the configuration step raises, [main] raises with the
    working directory that step leaves, in which the documentation tree is
    untouched: the index has not been written.  Otherwise the index is
    written to the working directory the configuration step leaves, whose
    documentation tree is still the one scanned. *)
Theorem main_stage_order (limit : nat) (w : world) :
  (forall e,
     scan_docs limit (docs w) "" = Err e -> main limit w = (w, Err e))
  /\ (forall nav index_links w1 e,
        scan_docs limit (docs w) "" = Ok (nav, index_links) ->
        update_mkdocs_yml nav w = (w1, Err e) ->
        main limit w = (w1, Err e) /\ docs w1 = docs w)
  /\ (forall nav index_links w1,
        scan_docs limit (docs w) "" = Ok (nav, index_links) ->
        update_mkdocs_yml nav w = (w1, Ok tt) ->
        docs w1 = docs w
        /\ main limit w = write_index (generate_index_md index_links 2) w1).
Proof.
  split; [|split].
  - intros e Hs. now rewrite main_run, Hs.
  - intros nav idx w1 e Hs Hu. rewrite main_run, Hs, Hu.
    now rewrite (update_mkdocs_yml_err nav w w1 e Hu).
  - intros nav idx w1 Hs Hu. rewrite main_run, Hs, Hu.
    destruct (scan_docs_ok_dir _ _ _ _ Hs) as [es Hd].
    apply update_mkdocs_yml_ok_inv in Hu as (m & _ & _ & ->).
    split; [reflexivity|].
    unfold makedirs_docs. cbn [docs]. now rewrite Hd.
Qed.

Lemma main_stage_order_witness :
  main 3 (mkWorld None (Some (Parses (YMap example_config))) true)
  = (mkWorld None (Some (Parses (YMap example_config))) true,
     Err FileNotFoundError)
  /\ main 3 (mkWorld (Some example_docs) (Some Malformed) true)
     = (mkWorld (Some example_docs) (Some Malformed) true, Err YAMLError)
  /\ main 3 (mkWorld (Some example_docs)
                     (Some (Parses (YMap example_config))) false)
     = (mkWorld (Some example_docs)
                (Some (Parses (YMap example_config))) false,
        Err PermissionError)
  /\ main 3 example_world
     = write_index
         (generate_index_md
            [IdxSection "Empty" [];
             IdxSection "Guide" [IdxEntry "Intro" "guide/intro.md"]] 2)
         (fst (update_mkdocs_yml
                 [NavGroup "Empty" [];
                  NavGroup "Guide" [NavLeaf "Intro" "guide/intro.md"]]
                 example_world)).
Proof.
  split; [|split; [|split]].
  - exact (proj1 (main_stage_order 3
                    (mkWorld None (Some (Parses (YMap example_config))) true))
                 _ eq_refl).
  - exact (proj1 (proj1 (proj2 (main_stage_order 3
                             (mkWorld (Some example_docs) (Some Malformed) true)))
                        _ _ _ _ eq_refl eq_refl)).
  - exact (proj1 (proj1 (proj2 (main_stage_order 3
                             (mkWorld (Some example_docs)
                                (Some (Parses (YMap example_config))) false)))
                        _ _ _ _ eq_refl eq_refl)).
  - exact (proj2 (proj2 (proj2 (main_stage_order 3 example_world))
                    _ _ _ eq_refl eq_refl)).
Defined.

(** * Worked examples *)

Example format_title_words :
  format_title "getting_started-guide" = "Getting Started Guide".
Proof. reflexivity. Qed.

Example title_case_keeps_hyphen : title_case "my-file_one.md" = "My-File One".
Proof. reflexivity. Qed.

Example splitext_leading_dot : OsPath.splitext_root ".bashrc" = ".bashrc".
Proof. reflexivity. Qed.

Example splitext_last_dot : OsPath.splitext_root "a/b.c/..x.md" = "a/b.c/..x".
Proof. reflexivity. Qed.

Example sorted_code_points :
  sorted ["b.md"; "_a.md"; "B.md"; ".x"; "a.md"]
  = [".x"; "B.md"; "_a.md"; "a.md"; "b.md"].
Proof. reflexivity. Qed.

(** The example of the specification: [guide/intro.md], [guide/_draft.md],
    [.hidden/note.md] and [index.md]. *)
Example specification_example :
  let root :=
    Some (FDir [("index.md", FFile "");
                ("guide", FDir [("intro.md", FFile ""); ("_draft.md", FFile "")]);
                (".hidden", FDir [("note.md", FFile "")])]) in
  scan_docs 3 root ""
  = Ok ([NavGroup "Guide" [NavLeaf "Intro" "guide/intro.md"]],
        [IdxSection "Guide" [IdxEntry "Intro" "guide/intro.md"]])
  /\ render_links [IdxSection "Guide" [IdxEntry "Intro" "guide/intro.md"]] 2
       [("# Documentation Index" ++ nl)%string]
     = [("# Documentation Index" ++ nl)%string;
        (nl ++ "## Guide" ++ nl)%string;
        "- [Intro](guide/intro.md)"].
Proof. split; reflexivity. Qed.

Example recursion_limit_reached :
  scan_docs 1 (Some (FDir [("guide", FDir [])])) "" = Err RecursionError.
Proof. reflexivity. Qed.

(** * Further properties of the titles *)

Lemma smap_length (f : ascii -> ascii) (s : string) :
  String.length (PyStr.smap f s) = String.length s.
Proof. induction s as [|c r IH]; simpl; [reflexivity|now rewrite IH]. Qed.

Lemma title_loop_length (s : string) :
  forall b, String.length (PyStr.title_loop b s) = String.length s.
Proof. induction s as [|c r IH]; intros b; simpl; [reflexivity|now rewrite IH]. Qed.

Lemma cased_char_stable (b : bool) (c : ascii) :
  let x := if b then PyStr.to_lower c else PyStr.to_upper c in
  (if b then PyStr.to_lower x else PyStr.to_upper x) = x
  /\ PyStr.is_cased x = PyStr.is_cased c.
Proof.
  destruct b; destruct c as [[] [] [] [] [] [] [] []]; split; reflexivity.
Qed.

Lemma cased_char_no_separator (b : bool) (c : ascii) :
  let x := if b then PyStr.to_lower (unseparate c)
           else PyStr.to_upper (unseparate c) in
  Ascii.eqb x "_" = false /\ Ascii.eqb x "-" = false /\ unseparate x = x.
Proof.
  destruct b; destruct c as [[] [] [] [] [] [] [] []]; repeat split;
    reflexivity.
Qed.

Lemma title_loop_idem (s : string) :
  forall b, PyStr.title_loop b (PyStr.title_loop b s) = PyStr.title_loop b s.
Proof.
  induction s as [|c r IH]; intros b; simpl; [reflexivity|].
  destruct (cased_char_stable b c) as [H1 H2]. cbv zeta in H1, H2.
  now rewrite H1, H2, IH.
Qed.

Lemma title_loop_unseparated (s : string) :
  forall b,
    PyStr.smap unseparate (PyStr.title_loop b (PyStr.smap unseparate s))
    = PyStr.title_loop b (PyStr.smap unseparate s).
Proof.
  induction s as [|c r IH]; intros b; simpl; [reflexivity|].
  destruct (cased_char_no_separator b c) as (_ & _ & H). cbv zeta in H.
  now rewrite H, IH.
Qed.

Lemma title_loop_no_separator (s : string) :
  forall b,
    no_char "_" (PyStr.title_loop b (PyStr.smap unseparate s)) = true
    /\ no_char "-" (PyStr.title_loop b (PyStr.smap unseparate s)) = true.
Proof.
  induction s as [|c r IH]; intros b; simpl; [split; reflexivity|].
  destruct (cased_char_no_separator b c) as (H1 & H2 & _). cbv zeta in H1, H2.
  rewrite H1, H2. simpl. apply IH.
Qed.

Lemma cased_char_ascii (b : bool) (c : ascii) :
  (PyStr.code c <? 128) = true ->
  (PyStr.code (if b then PyStr.to_lower (unseparate c)
               else PyStr.to_upper (unseparate c)) <? 128) = true.
Proof.
  destruct b; destruct c as [[] [] [] [] [] [] [] []]; intros H;
    try reflexivity; discriminate H.
Qed.

Lemma title_loop_ascii (s : string) :
  forall b,
    ascii_name s = true ->
    ascii_name (PyStr.title_loop b (PyStr.smap unseparate s)) = true.
Proof.
  induction s as [|c r IH]; intros b; simpl; [reflexivity|].
  rewrite !andb_true_iff. intros [Hc Hr].
  split; [now apply cased_char_ascii|now apply IH].
Qed.

(** X1.  The title of a name of ASCII characters has the length of the
    name, is made of ASCII characters, holds neither an underscore nor a
    hyphen, and formatting it again changes nothing. *)
Theorem format_title_shape (name : string) :
  ascii_name name = true ->
  String.length (format_title name) = String.length name
  /\ ascii_name (format_title name) = true
  /\ no_char "_" (format_title name) = true
  /\ no_char "-" (format_title name) = true
  /\ format_title (format_title name) = format_title name.
Proof.
  intros Ha. rewrite !format_title_smap. unfold PyStr.title. repeat split.
  - now rewrite title_loop_length, smap_length.
  - now apply title_loop_ascii.
  - apply title_loop_no_separator.
  - apply title_loop_no_separator.
  - now rewrite title_loop_unseparated, title_loop_idem.
Qed.

Lemma format_title_shape_witness :
  String.length (format_title "api_v2-notes") = String.length "api_v2-notes"
  /\ ascii_name (format_title "api_v2-notes") = true
  /\ no_char "_" (format_title "api_v2-notes") = true
  /\ no_char "-" (format_title "api_v2-notes") = true
  /\ format_title (format_title "api_v2-notes") = format_title "api_v2-notes".
Proof.
  exact (format_title_shape "api_v2-notes" eq_refl).
Defined.

Lemma smap_fixed (f : ascii -> ascii) (c : ascii) (s : string) :
  (forall x, Ascii.eqb x c = false -> f x = x) ->
  no_char c s = true -> PyStr.smap f s = s.
Proof.
  intros Hf. induction s as [|x r IH]; simpl; [reflexivity|].
  rewrite andb_true_iff, negb_true_iff. intros [Hx Hr].
  now rewrite (Hf x Hx), IH.
Qed.

Lemma no_char_smap (f : ascii -> ascii) (c : ascii) (s : string) :
  (forall x, Ascii.eqb x c = false -> Ascii.eqb (f x) c = false) ->
  no_char c s = true -> no_char c (PyStr.smap f s) = true.
Proof.
  intros Hf. induction s as [|x r IH]; simpl; [reflexivity|].
  rewrite !andb_true_iff, !negb_true_iff. intros [Hx Hr]. auto.
Qed.

Lemma no_char_take (c : ascii) (s : string) :
  forall n, no_char c s = true -> no_char c (PyStr.take n s) = true.
Proof.
  unfold PyStr.take. induction s as [|x r IH]; intros [|n]; simpl; auto.
  rewrite !andb_true_iff. intros [Hx Hr]. auto.
Qed.

Lemma no_char_splitext_root (c : ascii) (p : string) :
  no_char c p = true -> no_char c (OsPath.splitext_root p) = true.
Proof.
  intros H. unfold OsPath.splitext_root.
  destruct (PyStr.rfind "." p) as [dotIndex|]; [|exact H].
  destruct (_ && _); [now apply no_char_take|exact H].
Qed.

Lemma title_underscores_only (s : string) :
  no_char "-" s = true ->
  PyStr.title (PyStr.replace "_"%char " "%char s) = format_title s.
Proof.
  intros H. unfold format_title. f_equal. symmetry.
  unfold PyStr.replace at 1. apply smap_fixed with (c := "-"%char).
  - intros x Hx. now rewrite Hx.
  - unfold PyStr.replace. apply no_char_smap; [|exact H].
    intros x Hx. now destruct (Ascii.eqb x "_").
Qed.

(** X2.  On a name without a hyphen the two programs derive the same
    title, for a directory and for a file. *)
Theorem titles_agree_without_hyphen (name : string) :
  no_char "-" name = true ->
  PyStr.title (PyStr.replace "_"%char " "%char name) = format_title name
  /\ title_case name = format_title (OsPath.splitext_root name).
Proof.
  intros H. split; [now apply title_underscores_only|].
  unfold title_case. apply title_underscores_only.
  now apply no_char_splitext_root.
Qed.

Lemma titles_agree_without_hyphen_witness :
  PyStr.title (PyStr.replace "_"%char " "%char "user_guide.md")
  = format_title "user_guide.md"
  /\ title_case "user_guide.md"
     = format_title (OsPath.splitext_root "user_guide.md").
Proof.
  exact (titles_agree_without_hyphen "user_guide.md" eq_refl).
Defined.

(** * The two trees of [scan_docs] mirror each other *)

Lemma link_of_node_group title children :
  link_of_node (NavGroup title children)
  = IdxSection title (map link_of_node children).
Proof.
  reflexivity.
Qed.

Lemma emits_mirror rec dir base item node link :
  (forall x r sn si, rec x r = Ok (sn, si) -> si = map link_of_node sn) ->
  emits rec dir base item node link -> link = link_of_node node.
Proof.
  intros Hrec. unfold emits. destruct (os_path_isdir (child dir item)).
  - intros (sn & si & Hr & -> & ->). rewrite link_of_node_group.
    now rewrite (Hrec _ _ _ _ Hr).
  - now intros [-> ->].
Qed.

Lemma scan_docs_mirror (fuel : nat) :
  forall dir base nav index_links,
    scan_docs fuel dir base = Ok (nav, index_links) ->
    index_links = map link_of_node nav.
Proof.
  induction fuel as [|fuel IH]; intros dir base nav idx H; [discriminate|].
  apply scan_docs_level in H.
  induction H as [|item node link ns nav idx He _ IHF]; [reflexivity|].
  simpl. rewrite <- IHF. f_equal.
  eapply emits_mirror; [|exact He]. intros x r sn si. apply IH.
Qed.

(** X3.  The index tree [scan_docs] returns is the navigation tree it
    returns with every leaf read as an entry and every group as a section:
    same shape, same titles, same paths, same order. *)
Theorem scan_docs_trees_mirror (fuel : nat) (dir : option fsnode)
    (base : string) (nav : list NavNode) (index_links : list IndexLink) :
  scan_docs fuel dir base = Ok (nav, index_links) ->
  index_links = map link_of_node nav.
Proof. apply scan_docs_mirror. Qed.

Lemma scan_docs_trees_mirror_witness :
  [IdxSection "Empty" [];
   IdxSection "Guide" [IdxEntry "Intro" "guide/intro.md"]]
  = map link_of_node
      [NavGroup "Empty" [];
       NavGroup "Guide" [NavLeaf "Intro" "guide/intro.md"]].
Proof.
  exact (scan_docs_trees_mirror 3 (Some example_docs) "" _ _ eq_refl).
Defined.

(** * Suffixes *)

Lemma string_length_app (a b : string) :
  String.length (a ++ b) = String.length a + String.length b.
Proof. induction a as [|c r IH]; simpl; [reflexivity|now rewrite IH]. Qed.

Lemma substring_app_skip (a b : string) (n m : nat) :
  String.substring (String.length a + n) m (a ++ b) = String.substring n m b.
Proof. induction a as [|c r IH]; simpl; [reflexivity|exact IH]. Qed.

Lemma substring_zero (s : string) : forall n, String.substring n 0 s = "".
Proof.
  induction s as [|c r IH]; intros [|n]; simpl; auto.
Qed.

Lemma substring_smap (f : ascii -> ascii) (s : string) :
  forall n m,
    String.substring n m (PyStr.smap f s)
    = PyStr.smap f (String.substring n m s).
Proof.
  induction s as [|c r IH]; intros [|n] [|m]; simpl; auto.
  now rewrite IH.
Qed.

Lemma endswith_app (a b p : string) :
  String.length p <= String.length b ->
  PyStr.endswith (a ++ b) p = PyStr.endswith b p.
Proof.
  intros Hl. unfold PyStr.endswith. rewrite string_length_app.
  replace (String.length a + String.length b - String.length p)
    with (String.length a + (String.length b - String.length p)) by lia.
  rewrite substring_app_skip. f_equal.
  apply Nat.leb_le in Hl. rewrite Hl. apply Nat.leb_le. apply Nat.leb_le in Hl. lia.
Qed.

Lemma endswith_length (s p : string) :
  PyStr.endswith s p = true -> String.length p <= String.length s.
Proof.
  unfold PyStr.endswith. rewrite andb_true_iff, Nat.leb_le. tauto.
Qed.

Lemma endswith_app_intro (a b p : string) :
  PyStr.endswith b p = true -> PyStr.endswith (a ++ b) p = true.
Proof.
  intros H. rewrite endswith_app; [exact H|now apply endswith_length].
Qed.

Lemma endswith_smap (f : ascii -> ascii) (s p : string) :
  PyStr.endswith s p = true ->
  PyStr.endswith (PyStr.smap f s) (PyStr.smap f p) = true.
Proof.
  unfold PyStr.endswith. rewrite !smap_length, substring_smap.
  rewrite !andb_true_iff, !String.eqb_eq. intros [Hl ->]. auto.
Qed.

Lemma replace_same (c : ascii) (s : string) : PyStr.replace c c s = s.
Proof.
  unfold PyStr.replace. induction s as [|x r IH]; simpl; [reflexivity|].
  rewrite IH. now destruct (Ascii.eqb_spec x c) as [->|].
Qed.

Lemma endswith_join (base item p : string) :
  PyStr.endswith item p = true ->
  PyStr.endswith (OsPath.join base item) p = true.
Proof.
  intros H. unfold OsPath.join.
  destruct (PyStr.startswith item "/"); [exact H|].
  destruct (_ || _); repeat apply endswith_app_intro; exact H.
Qed.

Lemma endswith_relpath_below (rel entry p : string) :
  PyStr.endswith entry p = true ->
  PyStr.endswith (relpath_below rel entry) p = true.
Proof.
  intros H. unfold relpath_below.
  destruct (String.eqb rel ""); repeat apply endswith_app_intro; exact H.
Qed.

(** * Leaves *)

Lemma nav_all_group leafP groupP title children :
  nav_all leafP groupP (NavGroup title children) = true <->
  groupP title = true
  /\ Forall (fun n => nav_all leafP groupP n = true) children.
Proof.
  cbn [nav_all]. rewrite andb_true_iff.
  assert (forall l,
            (fix all (cs : list NavNode) : bool :=
               match cs with
               | [] => true
               | c :: r => nav_all leafP groupP c && all r
               end) l = true
            <-> Forall (fun n => nav_all leafP groupP n = true) l) as Hall.
  { induction l as [|x r IHr]; [split; auto|].
    rewrite andb_true_iff, IHr. split.
    - intros [Hx Hr]. now constructor.
    - now inversion 1. }
  now rewrite Hall.
Qed.

Lemma nonempty_length (s : string) :
  String.eqb s "" = false <-> 0 < String.length s.
Proof.
  destruct s; simpl; split; try discriminate; try lia; auto.
Qed.

Lemma splitext_root_nonempty (p : string) :
  0 < String.length p -> 0 < String.length (OsPath.splitext_root p).
Proof.
  intros Hp. unfold OsPath.splitext_root.
  destruct (PyStr.rfind "." p) as [dotIndex|]; [|exact Hp].
  set (filenameIndex := match PyStr.rfind OsPath.sep p with
                        | Some sepIndex => S sepIndex
                        | None => 0
                        end).
  destruct (filenameIndex <=? dotIndex) eqn:Hle; simpl; [|exact Hp].
  destruct (dotIndex - filenameIndex) as [|k] eqn:Hk.
  - now rewrite substring_zero.
  - destruct (OsPath.has_non_dot _); [|exact Hp].
    destruct dotIndex as [|d]; [lia|].
    destruct p as [|c r]; [simpl in Hp; lia|]. simpl. lia.
Qed.

Lemma format_title_nonempty (name : string) :
  0 < String.length name -> String.eqb (format_title name) "" = false.
Proof.
  intros H. apply nonempty_length.
  rewrite format_title_smap. unfold PyStr.title.
  now rewrite title_loop_length, smap_length.
Qed.

Lemma title_case_nonempty (name : string) :
  0 < String.length name -> String.eqb (title_case name) "" = false.
Proof.
  intros H. apply nonempty_length. unfold title_case, PyStr.title, PyStr.replace.
  rewrite title_loop_length, smap_length. now apply splitext_root_nonempty.
Qed.

Lemma endswith_md_nonempty (item : string) :
  PyStr.endswith item ".md" = true -> 0 < String.length item.
Proof. intros H. apply endswith_length in H. simpl in H. lia. Qed.

Lemma scan_docs_sound_leaves (fuel : nat) :
  forall dir base nav index_links,
    scan_docs fuel dir base = Ok (nav, index_links) ->
    Forall (fun n => nav_all sound_leaf (fun _ => true) n = true) nav.
Proof.
  induction fuel as [|fuel IH]; intros dir base nav idx H; [discriminate|].
  pose proof (scan_docs_level _ _ _ _ _ H) as HF.
  assert (forall item, In item (emitted_names dir) ->
            os_path_isdir (child dir item) = false -> is_doc item = true)
    as Hdoc.
  { intros item Hin Hfile. apply emitted_names_In in Hin as (_ & _ & [Hd|Hd]);
      [congruence|exact Hd]. }
  clear H. induction HF as [|item node link ns nav idx He _ IHF];
    constructor.
  - unfold emits in He.
    destruct (os_path_isdir (child dir item)) eqn:D.
    + destruct He as (sn & si & Hr & -> & _).
      apply nav_all_group. split; [reflexivity|]. eapply IH; exact Hr.
    + destruct He as [-> _]. cbn [nav_all]. unfold sound_leaf.
      assert (is_doc item = true) as Hi by (apply Hdoc; [now left|exact D]).
      unfold is_doc in Hi. apply andb_true_iff in Hi as [Hmd _].
      rewrite replace_same, endswith_join by exact Hmd.
      rewrite format_title_nonempty; [reflexivity|].
      apply splitext_root_nonempty. now apply endswith_md_nonempty.
  - apply IHF. intros i Hi. apply Hdoc. now right.
Qed.

Lemma build_nav_sound_leaves (fuel : nat) :
  forall dir rel nav,
    build_nav fuel dir rel = Ok nav ->
    Forall (fun n => nav_all sound_leaf (fun _ => true) n = true) nav.
Proof.
  induction fuel as [|fuel IH]; intros dir rel nav H; [discriminate|].
  pose proof (build_nav_level _ _ _ _ H) as HF.
  assert (forall entry, In entry (built_names (build_nav fuel) dir rel) ->
            os_path_isdir (child dir entry) = false ->
            PyStr.endswith entry ".md" = true) as Hmd.
  { intros entry Hin Hfile. apply built_names_In in Hin as [_ He].
    unfold emitting_b in He. now rewrite Hfile in He. }
  clear H. induction HF as [|entry node ns nav He _ IHF]; constructor.
  - unfold emits_b in He.
    destruct (os_path_isdir (child dir entry)) eqn:D.
    + destruct He as (children & Hr & _ & ->).
      apply nav_all_group. split; [reflexivity|]. eapply IH; exact Hr.
    + subst node. cbn [nav_all]. unfold sound_leaf.
      assert (PyStr.endswith entry ".md" = true) as He
        by (apply Hmd; [now left|exact D]).
      rewrite title_case_nonempty by now apply endswith_md_nonempty.
      simpl. unfold PyStr.replace.
      change ".md" with (PyStr.smap
                           (fun c => if Ascii.eqb c "\" then "/"%char else c)
                           ".md").
      apply endswith_smap. now apply endswith_relpath_below.
  - apply IHF. intros e Hi. apply Hmd. now right.
Qed.

(** X4.  Every leaf either scanner returns, at any depth, has a title that
    is not empty and a path that ends in [.md]. *)
Theorem leaves_are_documents :
  (forall fuel dir base nav index_links,
     scan_docs fuel dir base = Ok (nav, index_links) ->
     Forall (fun n => nav_all sound_leaf (fun _ => true) n = true) nav)
  /\ (forall fuel dir rel nav,
        build_nav fuel dir rel = Ok nav ->
        Forall (fun n => nav_all sound_leaf (fun _ => true) n = true) nav).
Proof.
  split; [intros fuel; apply scan_docs_sound_leaves|].
  intros fuel. apply build_nav_sound_leaves.
Qed.

Lemma leaves_are_documents_witness :
  Forall (fun n => nav_all sound_leaf (fun _ => true) n = true)
    [NavGroup "Empty" []; NavGroup "Guide" [NavLeaf "Intro" "guide/intro.md"]]
  /\ Forall (fun n => nav_all sound_leaf (fun _ => true) n = true)
       [NavGroup ".Hidden" [NavLeaf "Note" ".hidden/note.md"];
        NavGroup "Guide" [NavLeaf " Draft" "guide/_draft.md";
                          NavLeaf "Intro" "guide/intro.md"];
        NavLeaf "Index" "index.md"].
Proof.
  split.
  - exact (proj1 leaves_are_documents 3 (Some example_docs) "" _ _ eq_refl).
  - exact (proj2 leaves_are_documents 3 (Some example_docs) "" _ eq_refl).
Defined.

(** * The order of the listing does not matter *)

Lemma lookup_perm (es es' : listing) :
  Permutation es es' -> NoDup (map fst es) ->
  forall n, lookup n es = lookup n es'.
Proof.
  induction 1 as [|[a x] l l' HP IH|[a x] [b y] l|l l' l'' HP1 IH1 HP2 IH2];
    intros Hnd n; simpl.
  - reflexivity.
  - simpl in Hnd. apply NoDup_cons_iff in Hnd as [_ Hnd]. now rewrite IH.
  - simpl in Hnd. apply NoDup_cons_iff in Hnd as [Hab _].
    destruct (String.eqb_spec a n) as [->|Ha];
      destruct (String.eqb_spec b n) as [->|Hb]; try reflexivity.
    exfalso. apply Hab. now left.
  - rewrite IH1 by exact Hnd. apply IH2.
    eapply Permutation_NoDup; [|exact Hnd]. now apply Permutation_map.
Qed.

Lemma sorted_perm_eq (l l' : list string) :
  Permutation l l' -> sorted l' = sorted l.
Proof.
  intros HP. apply sorted_unique; [|apply sorted_ordered].
  rewrite HP. apply sorted_perm.
Qed.

Lemma build_items_ext rec1 rec2 dir1 dir2 rel (entries : list string) :
  (forall entry, In entry entries ->
     os_path_isdir (child dir1 entry) = os_path_isdir (child dir2 entry)
     /\ (os_path_isdir (child dir1 entry) = true ->
         rec1 (child dir1 entry) (relpath_below rel entry)
         = rec2 (child dir2 entry) (relpath_below rel entry))) ->
  forall nav,
    build_items rec1 dir1 rel entries nav
    = build_items rec2 dir2 rel entries nav.
Proof.
  induction entries as [|entry rest IH]; intros H nav; simpl; [reflexivity|].
  assert (forall e, In e rest ->
            os_path_isdir (child dir1 e) = os_path_isdir (child dir2 e)
            /\ (os_path_isdir (child dir1 e) = true ->
                rec1 (child dir1 e) (relpath_below rel e)
                = rec2 (child dir2 e) (relpath_below rel e))) as Hr
    by (intros; apply H; now right).
  destruct (H entry (or_introl eq_refl)) as [Hd Hrec].
  rewrite <- Hd. destruct (os_path_isdir (child dir1 entry)).
  - rewrite <- Hrec by reflexivity.
    destruct (rec1 _ _) as [[|c cs]|e]; simpl;
      [now apply IH|now apply IH|reflexivity].
  - destruct (PyStr.endswith entry ".md"); now apply IH.
Qed.

(** X5.  The order in which the operating system lists a directory has no
    influence: on two listings of the same entries, with no name twice,
    either scanner returns the same. *)
Theorem listing_order_irrelevant (es es' : listing) :
  NoDup (map fst es) ->
  Permutation es es' ->
  (forall fuel base,
     scan_docs fuel (Some (FDir es')) base
     = scan_docs fuel (Some (FDir es)) base)
  /\ (forall fuel rel,
        build_nav fuel (Some (FDir es')) rel
        = build_nav fuel (Some (FDir es)) rel).
Proof.
  intros Hnd HP.
  assert (sorted (map fst es') = sorted (map fst es)) as Hs
    by (apply sorted_perm_eq; now apply Permutation_map).
  assert (forall n, child (Some (FDir es')) n = child (Some (FDir es)) n)
    as Hc by (intros n; cbn [child]; symmetry; now apply lookup_perm).
  split.
  - intros [|fuel] base; [reflexivity|].
    cbn [scan_docs os_listdir rbind]. rewrite Hs.
    apply scan_items_ext. intros item _ _. rewrite Hc. auto.
  - intros [|fuel] rel; [reflexivity|].
    cbn [build_nav os_listdir rbind]. rewrite Hs.
    apply build_items_ext. intros entry _. rewrite Hc. auto.
Qed.

Lemma listing_order_irrelevant_witness :
  scan_docs 3
    (Some (FDir [("guide", FDir [("intro.md", FFile "")]);
                 ("about.md", FFile "")])) ""
  = scan_docs 3
      (Some (FDir [("about.md", FFile "");
                   ("guide", FDir [("intro.md", FFile "")])])) "".
Proof.
  refine (proj1 (listing_order_irrelevant
                   [("about.md", FFile "");
                    ("guide", FDir [("intro.md", FFile "")])]
                   [("guide", FDir [("intro.md", FFile "")]);
                    ("about.md", FFile "")] _ _) 3 "").
  - repeat constructor; simpl; intuition discriminate.
  - apply perm_swap.
Defined.

(** * The recursion limit *)

Lemma scan_items_mono rec1 rec2 dir base (items : list string) :
  (forall x r res, rec1 x r = Ok res -> rec2 x r = Ok res) ->
  forall nav index_links res,
    scan_items rec1 dir base items nav index_links = Ok res ->
    scan_items rec2 dir base items nav index_links = Ok res.
Proof.
  intros Hrec. induction items as [|item rest IH]; intros nav idx res; simpl;
    [auto|].
  destruct (hidden item); [apply IH|].
  destruct (os_path_isdir (child dir item)).
  - destruct (rec1 _ _) as [[sn si]|e] eqn:R; simpl; [|discriminate].
    rewrite (Hrec _ _ _ R). simpl. apply IH.
  - destruct (is_doc item); apply IH.
Qed.

Lemma scan_docs_fuel_S (fuel : nat) :
  forall dir base res,
    scan_docs fuel dir base = Ok res -> scan_docs (S fuel) dir base = Ok res.
Proof.
  induction fuel as [|fuel IH]; intros dir base res; [discriminate|].
  change (scan_docs (S (S fuel)) dir base)
    with (items <- os_listdir dir ;;
          scan_items (scan_docs (S fuel)) dir base (sorted items) [] []).
  cbn [scan_docs]. destruct (os_listdir dir) as [items|e]; simpl; [|auto].
  apply scan_items_mono. intros x r. apply IH.
Qed.

Lemma build_items_mono rec1 rec2 dir rel (entries : list string) :
  (forall x r res, rec1 x r = Ok res -> rec2 x r = Ok res) ->
  forall nav res,
    build_items rec1 dir rel entries nav = Ok res ->
    build_items rec2 dir rel entries nav = Ok res.
Proof.
  intros Hrec. induction entries as [|entry rest IH]; intros nav res; simpl;
    [auto|].
  destruct (os_path_isdir (child dir entry)).
  - destruct (rec1 _ _) as [children|e] eqn:R; simpl; [|discriminate].
    rewrite (Hrec _ _ _ R). simpl. destruct children; apply IH.
  - destruct (PyStr.endswith entry ".md"); apply IH.
Qed.

Lemma build_nav_fuel_S (fuel : nat) :
  forall dir rel res,
    build_nav fuel dir rel = Ok res -> build_nav (S fuel) dir rel = Ok res.
Proof.
  induction fuel as [|fuel IH]; intros dir rel res; [discriminate|].
  change (build_nav (S (S fuel)) dir rel)
    with (entries <- os_listdir dir ;;
          build_items (build_nav (S fuel)) dir rel (sorted entries) []).
  cbn [build_nav]. destruct (os_listdir dir) as [entries|e]; simpl; [|auto].
  apply build_items_mono. intros x r. apply IH.
Qed.

(** X6.  What a scanner returns under one recursion limit it returns under
    every larger one, and on a directory it returns a result as soon as the
    limit reaches the depth of the tree. *)
Theorem recursion_limit_suffices (es : listing) (base : string) :
  (forall fuel fuel' res,
     fuel <= fuel' ->
     scan_docs fuel (Some (FDir es)) base = Ok res ->
     scan_docs fuel' (Some (FDir es)) base = Ok res)
  /\ (forall fuel,
        depth (FDir es) <= fuel ->
        exists res, scan_docs fuel (Some (FDir es)) base = Ok res)
  /\ (forall fuel fuel' res,
        fuel <= fuel' ->
        build_nav fuel (Some (FDir es)) base = Ok res ->
        build_nav fuel' (Some (FDir es)) base = Ok res)
  /\ (forall fuel,
        depth (FDir es) <= fuel ->
        exists res, build_nav fuel (Some (FDir es)) base = Ok res).
Proof.
  repeat split.
  - intros fuel fuel' res Hle H. induction Hle; [exact H|].
    now apply scan_docs_fuel_S.
  - intros fuel. apply scan_docs_total.
  - intros fuel fuel' res Hle H. induction Hle; [exact H|].
    now apply build_nav_fuel_S.
  - intros fuel. apply build_nav_total.
Qed.

Lemma recursion_limit_suffices_witness :
  scan_docs 7 (Some (FDir [("guide", FDir [("intro.md", FFile "")])])) ""
  = Ok ([NavGroup "Guide" [NavLeaf "Intro" "guide/intro.md"]],
        [IdxSection "Guide" [IdxEntry "Intro" "guide/intro.md"]])
  /\ build_nav 7 (Some (FDir [("guide", FDir [("intro.md", FFile "")])])) ""
     = Ok [NavGroup "Guide" [NavLeaf "Intro" "guide/intro.md"]].
Proof.
  split.
  - refine (proj1 (recursion_limit_suffices
                     [("guide", FDir [("intro.md", FFile "")])] "")
                  2 7 _ _ eq_refl). lia.
  - refine (proj1 (proj2 (proj2 (recursion_limit_suffices
                     [("guide", FDir [("intro.md", FFile "")])] "")))
                  2 7 _ _ eq_refl). lia.
Defined.

(** * The index document *)

Lemma render_link_acc (l : IndexLink) :
  forall level lines,
    render_link l level lines = lines ++ render_link l level [].
Proof.
  induction l as [title path|title children IH] using IndexLink_nested_ind;
    intros level lines.
  - reflexivity.
  - rewrite !render_link_section.
    assert (forall acc,
              render_links children (S level) acc
              = acc ++ render_links children (S level) []) as Hcs.
    { induction IH as [|c r Hc _ IHr]; intros acc; simpl.
      - now rewrite app_nil_r.
      - rewrite IHr, Hc. rewrite (IHr (render_link c (S level) [])).
        now rewrite app_assoc. }
    rewrite Hcs. rewrite (Hcs ([] ++ _)). simpl. now rewrite <- app_assoc.
Qed.

Lemma render_links_acc (links : list IndexLink) :
  forall level lines,
    render_links links level lines = lines ++ render_links links level [].
Proof.
  induction links as [|l r IH]; intros level lines; simpl.
  - now rewrite app_nil_r.
  - rewrite IH, render_link_acc. rewrite (IH level (render_link l level [])).
    now rewrite app_assoc.
Qed.

Lemma render_link_length (l : IndexLink) :
  forall level lines,
    length (render_link l level lines) = length lines + link_count l.
Proof.
  induction l as [title path|title children IH] using IndexLink_nested_ind;
    intros level lines.
  - simpl. now rewrite length_app.
  - rewrite render_link_section.
    assert (forall acc,
              length (render_links children (S level) acc)
              = length acc + link_count_list children) as Hcs.
    { induction IH as [|c r Hc _ IHr]; intros acc; simpl.
      - lia.
      - rewrite IHr, Hc. lia. }
    rewrite Hcs, length_app. simpl.
    change ((fix count (cs : list IndexLink) : nat :=
               match cs with
               | [] => 0
               | c :: r => link_count c + count r
               end) children) with (link_count_list children).
    lia.
Qed.

Lemma render_links_length (links : list IndexLink) :
  forall level lines,
    length (render_links links level lines)
    = length lines + link_count_list links.
Proof.
  induction links as [|l r IH]; intros level lines; simpl; [lia|].
  rewrite IH, render_link_length. lia.
Qed.

Lemma headings_of_section level title children :
  headings_of level (IdxSection title children)
  = (level, title) :: headings_of_list (S level) children.
Proof.
  cbn [headings_of]. f_equal.
  induction children as [|c r IH]; simpl; [reflexivity|now rewrite IH].
Qed.

Lemma render_link_headings (l : IndexLink) :
  forall level lines,
    filter (fun x => negb (is_item_line x)) (render_link l level lines)
    = filter (fun x => negb (is_item_line x)) lines
      ++ map heading_line (headings_of level l).
Proof.
  induction l as [title path|title children IH] using IndexLink_nested_ind;
    intros level lines.
  - cbn [render_link headings_of map]. rewrite filter_app. cbn [filter].
    change ("- [" ++ title ++ "](" ++ path ++ ")")%string
      with (item_line (title, path)).
    now rewrite is_item_line_item.
  - rewrite render_link_section.
    assert (forall acc,
              filter (fun x => negb (is_item_line x))
                     (render_links children (S level) acc)
              = filter (fun x => negb (is_item_line x)) acc
                ++ map heading_line (headings_of_list (S level) children))
      as Hcs.
    { induction IH as [|c r Hc _ IHr]; intros acc; simpl.
      - now rewrite app_nil_r.
      - rewrite IHr, Hc, map_app. now rewrite app_assoc. }
    rewrite Hcs, filter_app. cbn [filter].
    rewrite is_item_line_heading, headings_of_section. cbn [negb map].
    now rewrite <- app_assoc.
Qed.

Lemma render_links_headings (links : list IndexLink) :
  forall level lines,
    filter (fun x => negb (is_item_line x)) (render_links links level lines)
    = filter (fun x => negb (is_item_line x)) lines
      ++ map heading_line (headings_of_list level links).
Proof.
  induction links as [|l r IH]; intros level lines; simpl.
  - now rewrite app_nil_r.
  - rewrite IH, render_link_headings, map_app. now rewrite app_assoc.
Qed.

(** X7.  The index document opens with the title line.  Its lines are the
    title line and then one line per link of the tree, sections included;
    the lines that are not list items are the title line followed by the
    headings of the sections in the order of the tree, a section met
    [d] levels down under a heading of [level + d] hash signs. *)
Theorem index_document_shape (index_links : list IndexLink) (level : nat) :
  String.prefix index_title_line (generate_index_md index_links level) = true
  /\ length (render_links index_links level [index_title_line])
     = S (link_count_list index_links)
  /\ filter (fun x => negb (is_item_line x))
            (render_links index_links level [index_title_line])
     = index_title_line
       :: map heading_line (headings_of_list level index_links).
Proof.
  split; [|split].
  - unfold generate_index_md, PyStr.join.
    fold index_title_line. rewrite render_links_acc. simpl.
    destruct (render_links index_links level []) as [|x r]; reflexivity.
  - now rewrite render_links_length.
  - now rewrite render_links_headings.
Qed.

(** * The configuration step, whatever the file holds *)

Lemma update_mkdocs_yml_frame nav w w' r :
  update_mkdocs_yml nav w = (w', r) ->
  docs w' = docs w /\ mkdocs_writable w' = mkdocs_writable w.
Proof.
  rewrite update_mkdocs_yml_run.
  destruct (starting_config w) as [config|e0]; [|now intros [= <- _]].
  destruct (setitem config "nav" (nav_value nav)) as [config'|e0];
    [|now intros [= <- _]].
  unfold dump_config. destruct (mkdocs_writable w) eqn:Hw.
  - intros [= <- _]. simpl. auto.
  - now intros [= <- _].
Qed.

(** X8.  The configuration step of [generate_nav_and_index.py] never
    touches the documentation tree.  Whenever it returns, the configuration
    file holds a mapping whose [nav] key is the serialized tree.  When the
    file cannot be loaded, or cannot be opened for writing, the step raises
    and the file is as it was. *)
Theorem config_step_effects (nav : list NavNode) (w : world) :
  (forall w' r, update_mkdocs_yml nav w = (w', r) -> docs w' = docs w)
  /\ (forall w',
        update_mkdocs_yml nav w = (w', Ok tt) ->
        exists m,
          mkdocs w' = Some (Parses (YMap m))
          /\ dict_get (SStr "nav") m = Some (nav_value nav))
  /\ (mkdocs w = Some Malformed \/ mkdocs_writable w = false ->
      exists e, update_mkdocs_yml nav w = (w, Err e)).
Proof.
  split; [|split].
  - intros w' r H. now apply (update_mkdocs_yml_frame nav w w' r).
  - intros w' H. apply update_mkdocs_yml_ok_inv in H as (m & _ & _ & ->).
    exists (dict_set (SStr "nav") (nav_value nav) m).
    split; [reflexivity|apply dict_get_set_same].
  - intros Hc. rewrite update_mkdocs_yml_run.
    destruct Hc as [Hm|Hw].
    + unfold starting_config. rewrite Hm. eauto.
    + destruct (starting_config w) as [config|e]; [|eauto].
      destruct (setitem config "nav" (nav_value nav)) as [config'|e];
        [|eauto].
      unfold dump_config. rewrite Hw. eauto.
Qed.

Lemma config_step_effects_witness :
  (exists m,
     mkdocs (fst (update_mkdocs_yml [NavLeaf "Intro" "intro.md"] example_world))
     = Some (Parses (YMap m))
     /\ dict_get (SStr "nav") m
        = Some (nav_value [NavLeaf "Intro" "intro.md"]))
  /\ (exists e,
        update_mkdocs_yml [NavLeaf "Intro" "intro.md"]
          (mkWorld (Some example_docs) (Some Malformed) true)
        = (mkWorld (Some example_docs) (Some Malformed) true, Err e))
  /\ (exists e,
        update_mkdocs_yml [NavLeaf "Intro" "intro.md"]
          (mkWorld (Some example_docs)
             (Some (Parses (YMap example_config))) false)
        = (mkWorld (Some example_docs)
             (Some (Parses (YMap example_config))) false, Err e)).
Proof.
  split; [|split].
  - exact (proj1 (proj2 (config_step_effects [NavLeaf "Intro" "intro.md"]
                           example_world)) _ eq_refl).
  - exact (proj2 (proj2 (config_step_effects [NavLeaf "Intro" "intro.md"]
                           (mkWorld (Some example_docs) (Some Malformed) true)))
             (or_introl eq_refl)).
  - exact (proj2 (proj2 (config_step_effects [NavLeaf "Intro" "intro.md"]
                           (mkWorld (Some example_docs)
                              (Some (Parses (YMap example_config))) false)))
             (or_intror eq_refl)).
Defined.

(** X9.  In [generate_nav_and_index.py], a configuration file that loads as
    a false value (null, [false], [0], the empty string, the empty list or
    the empty mapping) is replaced by a mapping whose only key is [nav];
    one that loads as any other value that is not a mapping makes the step
    raise [TypeError], and nothing is written. *)
Theorem config_that_is_no_mapping (nav : list NavNode) (w : world)
    (doc : yaml) :
  mkdocs w = Some (Parses doc) ->
  mkdocs_writable w = true ->
  (truthy doc = false ->
   update_mkdocs_yml nav w
   = (mkWorld (docs w) (Some (Parses (YMap [(SStr "nav", nav_value nav)])))
              true, Ok tt))
  /\ (truthy doc = true -> (forall m, doc <> YMap m) ->
      update_mkdocs_yml nav w = (w, Err TypeError)).
Proof.
  intros Hm Hw. split.
  - intros Hf. apply (update_mkdocs_yml_ok nav w []); [|exact Hw].
    unfold starting_config. now rewrite Hm, Hf.
  - intros Ht Hno. rewrite update_mkdocs_yml_run. unfold starting_config.
    rewrite Hm, Ht. destruct doc as [s|items|m]; try reflexivity.
    now destruct (Hno m).
Qed.

Lemma config_that_is_no_mapping_witness :
  update_mkdocs_yml [NavLeaf "Intro" "intro.md"]
    (mkWorld (Some example_docs) (Some (Parses (YSeq []))) true)
  = (mkWorld (Some example_docs)
       (Some (Parses (YMap [(SStr "nav",
                             nav_value [NavLeaf "Intro" "intro.md"])])))
       true, Ok tt)
  /\ update_mkdocs_yml [NavLeaf "Intro" "intro.md"]
       (mkWorld (Some example_docs)
          (Some (Parses (YSeq [YScalar (SStr "a")]))) true)
     = (mkWorld (Some example_docs)
          (Some (Parses (YSeq [YScalar (SStr "a")]))) true, Err TypeError).
Proof.
  split.
  - exact (proj1 (config_that_is_no_mapping [NavLeaf "Intro" "intro.md"]
                    (mkWorld (Some example_docs) (Some (Parses (YSeq []))) true)
                    (YSeq []) eq_refl eq_refl) eq_refl).
  - refine (proj2 (config_that_is_no_mapping [NavLeaf "Intro" "intro.md"]
                     (mkWorld (Some example_docs)
                        (Some (Parses (YSeq [YScalar (SStr "a")]))) true)
                     (YSeq [YScalar (SStr "a")]) eq_refl eq_refl) eq_refl _).
    intros m. discriminate.
Defined.

Lemma dict_set_set k v v' m :
  dict_set k v' (dict_set k v m) = dict_set k v' m.
Proof.
  induction m as [|[k0 v0] r IH]; simpl.
  - now rewrite scalar_eqb_refl.
  - destruct (scalar_eqb k0 k) eqn:E; simpl.
    + now rewrite scalar_eqb_refl.
    + now rewrite E, IH.
Qed.

(** X10.  A navigation tree written earlier leaves no trace: updating the
    configuration after a successful update gives what updating the
    original configuration gives. *)
Theorem nav_is_replaced (nav nav' : list NavNode) (w w1 : world) :
  update_mkdocs_yml nav w = (w1, Ok tt) ->
  update_mkdocs_yml nav' w1 = update_mkdocs_yml nav' w.
Proof.
  intros H. apply update_mkdocs_yml_ok_inv in H as (m & Hc & Hw & ->).
  rewrite (update_mkdocs_yml_ok nav' w m Hc Hw).
  rewrite (update_mkdocs_yml_ok nav' _
             (dict_set (SStr "nav") (nav_value nav) m)).
  - cbn [docs]. now rewrite dict_set_set.
  - unfold starting_config. cbn [mkdocs]. now rewrite truthy_dict_set.
  - reflexivity.
Qed.

Lemma nav_is_replaced_witness :
  update_mkdocs_yml [NavLeaf "B" "b.md"]
    (fst (update_mkdocs_yml [NavLeaf "A" "a.md"] example_world))
  = update_mkdocs_yml [NavLeaf "B" "b.md"] example_world.
Proof.
  exact (nav_is_replaced [NavLeaf "A" "a.md"] [NavLeaf "B" "b.md"]
           example_world _ eq_refl).
Defined.

(** X11.  A run of [update_nav.py] never touches the documentation tree.
    Whenever it returns, the configuration file holds a mapping whose
    [nav] key is the tree [build_nav] returned.  When the scan raises, the
    run raises the same error, and when the scan returns but the file does
    not load as a mapping (the null document included) the run raises
    [TypeError]; in both cases the file is as it was. *)
Theorem update_nav_effects (limit : nat) (w : world) :
  (forall w' r, update_mkdocs_yaml limit w = (w', r) -> docs w' = docs w)
  /\ (forall w',
        update_mkdocs_yaml limit w = (w', Ok tt) ->
        exists nav m,
          build_nav limit (docs w) "" = Ok nav
          /\ mkdocs w' = Some (Parses (YMap m))
          /\ dict_get (SStr "nav") m = Some (nav_value nav))
  /\ (forall doc e,
        mkdocs w = Some (Parses doc) ->
        build_nav limit (docs w) "" = Err e ->
        update_mkdocs_yaml limit w = (w, Err e))
  /\ (forall doc nav,
        mkdocs w = Some (Parses doc) -> (forall m, doc <> YMap m) ->
        build_nav limit (docs w) "" = Ok nav ->
        update_mkdocs_yaml limit w = (w, Err TypeError)).
Proof.
  rewrite update_mkdocs_yaml_run. split; [|split; [|split]].
  - intros w' r.
    destruct (mkdocs w) as [[doc|]|]; try (now intros [= <- _]).
    destruct (build_nav limit (docs w) "") as [nav|e0];
      [|now intros [= <- _]].
    destruct (setitem doc "nav" (nav_value nav)) as [config'|e0];
      [|now intros [= <- _]].
    unfold dump_config. destruct (mkdocs_writable w); now intros [= <- _].
  - intros w'.
    destruct (mkdocs w) as [[doc|]|]; try discriminate.
    destruct (build_nav limit (docs w) "") as [nav|e0]; [|discriminate].
    destruct doc as [s|items|m]; simpl; try discriminate.
    unfold dump_config. destruct (mkdocs_writable w); [|discriminate].
    intros [= <-]. exists nav, (dict_set (SStr "nav") (nav_value nav) m).
    repeat split. apply dict_get_set_same.
  - intros doc e Hm Hb. now rewrite Hm, Hb.
  - intros doc nav Hm Hno Hb. rewrite Hm, Hb.
    destruct doc as [s|items|m]; try reflexivity.
    now destruct (Hno m).
Qed.

Lemma update_nav_effects_witness :
  update_mkdocs_yaml 3
    (mkWorld (Some example_docs) (Some (Parses (YScalar SNull))) true)
  = (mkWorld (Some example_docs) (Some (Parses (YScalar SNull))) true,
     Err TypeError)
  /\ update_mkdocs_yaml 3
       (mkWorld None (Some (Parses (YMap example_config))) true)
     = (mkWorld None (Some (Parses (YMap example_config))) true,
        Err FileNotFoundError)
  /\ exists nav m,
       build_nav 3 (docs example_world) "" = Ok nav
       /\ mkdocs (fst (update_mkdocs_yaml 3 example_world))
          = Some (Parses (YMap m))
       /\ dict_get (SStr "nav") m = Some (nav_value nav).
Proof.
  split; [|split].
  - refine (proj2 (proj2 (proj2 (update_nav_effects 3
              (mkWorld (Some example_docs) (Some (Parses (YScalar SNull))) true))))
              (YScalar SNull) _ eq_refl _ eq_refl).
    intros m. discriminate.
  - exact (proj1 (proj2 (proj2 (update_nav_effects 3
              (mkWorld None (Some (Parses (YMap example_config))) true))))
              _ _ eq_refl eq_refl).
  - exact (proj1 (proj2 (update_nav_effects 3 example_world)) _ eq_refl).
Defined.

(** * What a run of [main] leaves behind *)

Lemma set_entry_names_In name x es n :
  In n (map fst (set_entry name x es)) <-> In n (map fst es) \/ n = name.
Proof.
  induction es as [|[a y] r IH]; simpl.
  - split; [intros [H|[]]; auto|intros [[]|H]; auto].
  - destruct (String.eqb_spec a name) as [->|Ha]; simpl.
    + split; [intros [H|H]; auto|intros [[H|H]|H]; auto].
    + rewrite IH. tauto.
Qed.

(** X12.  A successful run of [main] changes nothing below the
    documentation root but [index.md]: every other name is listed as
    before and names the same file or directory, and [index.md] is listed
    afterwards. *)
Theorem main_touches_only_index (limit : nat) (w w1 : world) :
  main limit w = (w1, Ok tt) ->
  (forall name, name <> INDEX_NAME ->
     child (docs w1) name = child (docs w) name)
  /\ (forall name,
        (exists es1, docs w1 = Some (FDir es1) /\ In name (map fst es1))
        <-> (exists es, docs w = Some (FDir es) /\ In name (map fst es))
            \/ name = INDEX_NAME)
  /\ mkdocs_writable w1 = mkdocs_writable w.
Proof.
  intros H.
  apply main_ok_inv in H as (es & nav & idx & m & Hd & _ & _ & Hw & _ & ->).
  rewrite Hd, Hw. cbn [docs mkdocs_writable]. repeat split.
  - intros name Hn. cbn [child]. now apply lookup_set_entry_other.
  - intros (es1 & [= <-] & Hin). apply set_entry_names_In in Hin as [Hin| ->];
      eauto.
  - intros [(es0 & [= <-] & Hin)| ->]; eexists; split; try reflexivity;
      apply set_entry_names_In; auto.
Qed.

Lemma main_touches_only_index_witness :
  child (docs (fst (main 3 example_world))) "guide"
  = child (docs example_world) "guide".
Proof.
  refine (proj1 (main_touches_only_index 3 example_world _ eq_refl) "guide" _).
  discriminate.
Defined.

(** X13.  When [index.md] below the documentation root is a directory, the
    run of [main] raises [IsADirectoryError] only after the configuration
    has been rewritten: the new navigation tree is in the configuration,
    the documentation tree is untouched. *)
Theorem index_failure_follows_config_write (limit : nat) (w : world)
    (es sub : listing) (m : list (scalar * yaml)) :
  docs w = Some (FDir es) ->
  lookup INDEX_NAME es = Some (FDir sub) ->
  depth (FDir es) <= limit ->
  starting_config w = Ok (YMap m) ->
  mkdocs_writable w = true ->
  exists nav index_links,
    scan_docs limit (docs w) "" = Ok (nav, index_links)
    /\ main limit w
       = (mkWorld (docs w)
            (Some (Parses (YMap (dict_set (SStr "nav") (nav_value nav) m))))
            true, Err IsADirectoryError).
Proof.
  intros Hd Hl Hdepth Hc Hw.
  destruct (scan_docs_total limit es "" Hdepth) as [[nav idx] Hs].
  rewrite <- Hd in Hs. exists nav, idx. split; [exact Hs|].
  rewrite main_run, Hs, (update_mkdocs_yml_ok nav w m Hc Hw).
  unfold makedirs_docs, write_index. simpl. rewrite Hd. simpl.
  now rewrite Hl.
Qed.

Lemma index_failure_follows_config_write_witness :
  exists nav index_links,
    scan_docs 3 (Some (FDir [("index.md", FDir [])])) ""
    = Ok (nav, index_links)
    /\ main 3 (mkWorld (Some (FDir [("index.md", FDir [])])) None true)
       = (mkWorld (Some (FDir [("index.md", FDir [])]))
            (Some (Parses (YMap (dict_set (SStr "nav") (nav_value nav) []))))
            true, Err IsADirectoryError).
Proof.
  refine (index_failure_follows_config_write 3
            (mkWorld (Some (FDir [("index.md", FDir [])])) None true)
            [("index.md", FDir [])] [] [] eq_refl eq_refl _ eq_refl eq_refl).
  simpl. lia.
Defined.

(** * The paths of the leaves lead to files *)

Lemma Forall3_In_node {A B C : Type} (R : A -> B -> C -> Prop) la lb lc b :
  Forall3 R la lb lc -> In b lb ->
  exists a c, In a la /\ In c lc /\ R a b c.
Proof.
  induction 1 as [|a' b' c' la lb lc HR HF IH]; intros Hb; [contradiction|].
  destruct Hb as [->|Hb].
  - exists a', c'. repeat split; simpl; auto.
  - destruct (IH Hb) as (a & c & Ha & Hc & H).
    exists a, c. repeat split; simpl; auto.
Qed.

Lemma names_all_dir P es : names_all P (FDir es) = entries_all P es.
Proof.
  cbn [names_all].
  induction es as [|[n y] r IH]; simpl; [reflexivity|now rewrite IH].
Qed.

Lemma entries_all_In P es n :
  entries_all P es = true -> In n (map fst es) -> P n = true.
Proof.
  induction es as [|[a y] r IH]; simpl; [contradiction|].
  rewrite !andb_true_iff. intros [[Ha _] Hr] [<-|Hin]; auto.
Qed.

Lemma entries_all_lookup P es n y :
  entries_all P es = true -> lookup n es = Some y -> names_all P y = true.
Proof.
  induction es as [|[a x] r IH]; simpl; [discriminate|].
  rewrite !andb_true_iff. intros [[_ Hx] Hr].
  destruct (String.eqb a n); [now intros [= <-]|auto].
Qed.

Lemma lookup_In (es : listing) (n : string) :
  In n (map fst es) -> exists y, lookup n es = Some y.
Proof.
  induction es as [|[a x] r IH]; simpl; [contradiction|].
  destruct (String.eqb_spec a n) as [->|Ha]; [eauto|].
  intros [H|H]; [contradiction|auto].
Qed.

Lemma path_component_spec (n : string) :
  path_component n = true ->
  0 < String.length n /\ no_char "/" n = true.
Proof.
  unfold path_component. rewrite andb_true_iff, negb_true_iff.
  intros [H1 H2]. split; [now apply nonempty_length|exact H2].
Qed.

Lemma no_char_startswith (c : ascii) (s : string) :
  no_char c s = true -> PyStr.startswith s (String c "") = false.
Proof.
  unfold PyStr.startswith. destruct s as [|x r]; simpl; [reflexivity|].
  rewrite andb_true_iff, negb_true_iff. intros [Hx _].
  destruct (ascii_dec c x) as [->|_]; [|reflexivity].
  now rewrite Ascii.eqb_refl in Hx.
Qed.

Lemma substring_one_occurs (c : ascii) (s : string) :
  forall n, String.substring n 1 s = String c "" -> no_char c s = false.
Proof.
  induction s as [|x r IH]; intros [|n]; simpl; try discriminate.
  - intros [= -> _]. now rewrite Ascii.eqb_refl.
  - intros H. rewrite (IH n H). apply andb_false_r.
Qed.

Lemma no_char_endswith (c : ascii) (s : string) :
  no_char c s = true -> PyStr.endswith s (String c "") = false.
Proof.
  intros H. unfold PyStr.endswith.
  destruct (_ <=? _); [simpl|reflexivity].
  destruct (String.eqb_spec (String.substring (String.length s - 1) 1 s)
                            (String c "")) as [E|_]; [|reflexivity].
  apply substring_one_occurs in E. congruence.
Qed.

Lemma string_app_assoc (a b c : string) :
  ((a ++ b) ++ c = a ++ (b ++ c))%string.
Proof. induction a as [|x r IH]; simpl; [reflexivity|now rewrite IH]. Qed.

Lemma endswith_slash_after (a n : string) :
  path_component n = true -> PyStr.endswith (a ++ n) "/" = false.
Proof.
  intros H. apply path_component_spec in H as [Hl Hn].
  rewrite endswith_app by (simpl; lia). now apply no_char_endswith.
Qed.

Lemma join_below (base item : string) :
  path_component item = true ->
  base = "" \/ PyStr.endswith base "/" = false ->
  OsPath.join base item = relpath_below base item.
Proof.
  intros Hi Hb. unfold OsPath.join, relpath_below.
  rewrite no_char_startswith by now apply path_component_spec in Hi.
  destruct Hb as [->|Hb]; [reflexivity|].
  rewrite Hb, orb_false_r. now destruct (String.eqb_spec base "") as [->|].
Qed.

Lemma relpath_below_base (rel entry : string) :
  path_component entry = true ->
  relpath_below rel entry = ""
  \/ PyStr.endswith (relpath_below rel entry) "/" = false.
Proof.
  intros H. right. unfold relpath_below.
  destruct (String.eqb rel "").
  - apply (endswith_slash_after "" entry H).
  - rewrite <- string_app_assoc. now apply endswith_slash_after.
Qed.

Lemma split_path_plain (n : string) :
  no_char "/" n = true -> split_path n = [n].
Proof.
  induction n as [|c r IH]; simpl; [reflexivity|].
  rewrite andb_true_iff, negb_true_iff. intros [Hc Hr].
  now rewrite Hc, IH.
Qed.

Lemma split_path_app (n r : string) :
  no_char "/" n = true -> split_path (n ++ "/" ++ r) = n :: split_path r.
Proof.
  change ("/" ++ r)%string with (String "/" r).
  induction n as [|c n' IH]; simpl; [reflexivity|].
  rewrite andb_true_iff, negb_true_iff. intros [Hc Hn].
  now rewrite Hc, IH.
Qed.

Lemma split_path_concat (comps : list string) :
  Forall (fun c => path_component c = true) comps -> comps <> [] ->
  split_path (String.concat "/" comps) = comps.
Proof.
  induction 1 as [|x r Hx Hr IH]; intros Hne; [contradiction|].
  apply path_component_spec in Hx as [_ Hx].
  destruct r as [|y r'].
  - now apply split_path_plain.
  - change (String.concat "/" (x :: y :: r'))
      with (x ++ "/" ++ String.concat "/" (y :: r'))%string.
    rewrite split_path_app by exact Hx. f_equal. now apply IH.
Qed.

Lemma relpath_below_nest (b item s : string) :
  0 < String.length item ->
  relpath_below (relpath_below b item) s = relpath_below b (item ++ "/" ++ s).
Proof.
  intros Hi. unfold relpath_below.
  destruct (String.eqb_spec b "") as [->|Hb].
  - destruct item; [simpl in Hi; lia|reflexivity].
  - destruct b as [|x b']; [contradiction|]. simpl.
    now rewrite string_app_assoc.
Qed.

Lemma scan_docs_leaves_resolve (fuel : nat) :
  forall d b nav index_links,
    names_all path_component d = true ->
    b = "" \/ PyStr.endswith b "/" = false ->
    scan_docs fuel (Some d) b = Ok (nav, index_links) ->
    forall n title path,
      In n nav -> leaf_in n title path ->
      exists comps content,
        comps <> []
        /\ Forall (fun c => path_component c = true) comps
        /\ path = relpath_below b (String.concat "/" comps)
        /\ walk d comps = Some (FFile content).
Proof.
  induction fuel as [|fuel IH]; intros d b nav idx Hwf Hb H; [discriminate|].
  destruct (scan_docs_ok_dir _ _ _ _ H) as [es [= ->]].
  rewrite names_all_dir in Hwf.
  apply scan_docs_level in H.
  intros n title path Hin Hleaf.
  destruct (Forall3_In_node _ _ _ _ _ H Hin) as (item & link & Hi & _ & He).
  apply emitted_names_In in Hi as ((es' & [= <-] & Hi) & _ & _).
  pose proof (entries_all_In _ _ _ Hwf Hi) as Hitem.
  unfold emits in He. cbn [child] in He.
  destruct (lookup_In es item Hi) as [y Hy]. rewrite Hy in He.
  rewrite (join_below b item Hitem Hb) in He.
  destruct y as [content|sub]; cbn [os_path_isdir] in He.
  - destruct He as [-> _]. inversion Hleaf; subst.
    exists [item], content. rewrite replace_same. simpl. rewrite Hy.
    repeat split; auto. discriminate.
  - destruct He as (sn & si & Hrec & -> & _).
    inversion Hleaf as [|t cs c t' p Hc Hl]; subst.
    destruct (IH (FDir sub) (relpath_below b item) sn si
                (entries_all_lookup _ _ _ _ Hwf Hy)
                (relpath_below_base b item Hitem) Hrec c title path Hc Hl)
      as (comps & content & Hne & Hall & -> & Hw).
    exists (item :: comps), content. repeat split.
    + discriminate.
    + now constructor.
    + rewrite relpath_below_nest
        by now apply path_component_spec in Hitem.
      destruct comps as [|c0 cr]; [contradiction|reflexivity].
    + simpl. now rewrite Hy.
Qed.

(** X14.  When the names below the documentation root are not empty and
    hold no slash, every path [scan_docs] lists, at any depth, leads from
    the root to a file: split at the slashes, it names a chain of entries
    of the tree that ends in a file. *)
Theorem scan_docs_links_resolve (fuel : nat) (root : fsnode)
    (nav : list NavNode) (index_links : list IndexLink) :
  names_all path_component root = true ->
  scan_docs fuel (Some root) "" = Ok (nav, index_links) ->
  forall n title path,
    In n nav -> leaf_in n title path ->
    exists content, walk root (split_path path) = Some (FFile content).
Proof.
  intros Hwf Hs n title path Hin Hleaf.
  destruct (scan_docs_leaves_resolve fuel root "" nav index_links Hwf
              (or_introl eq_refl) Hs n title path Hin Hleaf)
    as (comps & content & Hne & Hall & -> & Hw).
  exists content. unfold relpath_below. simpl.
  now rewrite split_path_concat.
Qed.

Lemma scan_docs_links_resolve_witness :
  exists content,
    walk example_docs (split_path "guide/intro.md") = Some (FFile content).
Proof.
  refine (scan_docs_links_resolve 3 example_docs _ _ eq_refl eq_refl
            (NavGroup "Guide" [NavLeaf "Intro" "guide/intro.md"])
            "Intro" "guide/intro.md" _ _).
  - simpl. tauto.
  - eapply leaf_below; [now left|constructor].
Defined.

(** * The two scanners side by side *)

Lemma elide_group title children :
  elide (NavGroup title children)
  = match elide_list children with
    | [] => []
    | c :: r => [NavGroup title (c :: r)]
    end.
Proof. reflexivity. Qed.

Lemma elide_list_app (a b : list NavNode) :
  elide_list (a ++ b) = elide_list a ++ elide_list b.
Proof.
  induction a as [|n r IH]; simpl; [reflexivity|].
  now rewrite IH, app_assoc.
Qed.

Lemma no_char_app (c : ascii) (a b : string) :
  no_char c (a ++ b) = no_char c a && no_char c b.
Proof.
  induction a as [|x r IH]; simpl; [reflexivity|].
  now rewrite IH, andb_assoc.
Qed.

Lemma no_char_relpath_below (rel entry : string) :
  no_char "\" rel = true -> no_char "\" entry = true ->
  no_char "\" (relpath_below rel entry) = true.
Proof.
  intros Hr He. unfold relpath_below.
  destruct (String.eqb rel ""); [exact He|].
  rewrite !no_char_app, Hr, He. reflexivity.
Qed.

Lemma shared_name_spec (n : string) :
  shared_name n = true ->
  path_component n = true /\ hidden n = false /\ no_char "-" n = true
  /\ no_char "\" n = true /\ is_doc n = PyStr.endswith n ".md".
Proof.
  unfold shared_name, is_doc.
  rewrite !andb_true_iff, !negb_true_iff.
  intros [[[[H1 H2] H3] H4] H5]. rewrite H5, andb_true_r. auto.
Qed.

Lemma side_by_side_items (fuel : nat) es b :
  (forall sub base nav index_links,
     names_all shared_name (FDir sub) = true ->
     base = "" \/ PyStr.endswith base "/" = false ->
     no_char "\" base = true ->
     scan_docs fuel (Some (FDir sub)) base = Ok (nav, index_links) ->
     build_nav fuel (Some (FDir sub)) base = Ok (elide_list nav)) ->
  entries_all shared_name es = true ->
  b = "" \/ PyStr.endswith b "/" = false ->
  no_char "\" b = true ->
  forall items,
    (forall item, In item items -> In item (map fst es)) ->
    forall nav0 idx0 nav index_links,
      scan_items (scan_docs fuel) (Some (FDir es)) b items nav0 idx0
      = Ok (nav, index_links) ->
      build_items (build_nav fuel) (Some (FDir es)) b items (elide_list nav0)
      = Ok (elide_list nav).
Proof.
  intros IH Hwf Hb Hbs.
  induction items as [|item rest IHl]; intros Hin nav0 idx0 nav idx; simpl.
  - now intros [= <- _].
  - assert (forall i, In i rest -> In i (map fst es)) as Hrest
      by (intros; apply Hin; now right).
    pose proof (Hin item (or_introl eq_refl)) as Hi.
    destruct (shared_name_spec item (entries_all_In _ _ _ Hwf Hi))
      as (Hpc & Hh & Hhy & Hbk & Hdoc).
    rewrite Hh, Hdoc, (join_below b item Hpc Hb).
    cbn [child]. destruct (lookup_In es item Hi) as [y Hy]. rewrite Hy.
    destruct y as [content|sub]; cbn [os_path_isdir].
    + destruct (PyStr.endswith item ".md"); [|now apply IHl].
      intros H. apply IHl in H; [|exact Hrest].
      rewrite elide_list_app in H. cbn [elide_list elide app] in H.
      rewrite replace_same in H.
      unfold title_case.
      rewrite title_underscores_only
        by now apply no_char_splitext_root.
      unfold PyStr.replace at 1.
      rewrite (smap_fixed _ "\"%char); [exact H| |].
      * intros x Hx. now rewrite Hx.
      * now apply no_char_relpath_below.
    + destruct (scan_docs fuel (Some (FDir sub)) (relpath_below b item))
        as [[sn si]|e] eqn:Hrec; simpl; [|discriminate].
      rewrite (IH sub _ sn si); try exact Hrec.
      * simpl. intros H. apply IHl in H; [|exact Hrest].
        rewrite elide_list_app in H. cbn [elide_list] in H.
        rewrite elide_group, app_nil_r in H.
        rewrite title_underscores_only by exact Hhy.
        destruct (elide_list sn) as [|c r]; [|exact H].
        now rewrite app_nil_r in H.
      * apply (entries_all_lookup _ _ _ _ Hwf Hy).
      * now apply relpath_below_base.
      * now apply no_char_relpath_below.
Qed.

Lemma side_by_side (fuel : nat) :
  forall sub base nav index_links,
    names_all shared_name (FDir sub) = true ->
    base = "" \/ PyStr.endswith base "/" = false ->
    no_char "\" base = true ->
    scan_docs fuel (Some (FDir sub)) base = Ok (nav, index_links) ->
    build_nav fuel (Some (FDir sub)) base = Ok (elide_list nav).
Proof.
  induction fuel as [|fuel IH]; intros sub base nav idx Hwf Hb Hbs;
    [discriminate|].
  cbn [scan_docs build_nav os_listdir rbind]. intros H.
  rewrite names_all_dir in Hwf.
  apply (side_by_side_items fuel sub base IH Hwf Hb Hbs
           (sorted (map fst sub))
           (fun item Hi => proj1 (sorted_In _ item) Hi) [] [] nav idx H).
Qed.

(** X15.  On a tree whose names are path components that neither start
    with a dot or an underscore, nor hold a hyphen or a backslash, nor are
    [index.md], the navigation tree of [update_nav.py] is the one of
    [generate_nav_and_index.py] without the groups that hold no leaf. *)
Theorem build_nav_is_elided_scan (fuel : nat) (es : listing)
    (nav : list NavNode) (index_links : list IndexLink) :
  names_all shared_name (FDir es) = true ->
  scan_docs fuel (Some (FDir es)) "" = Ok (nav, index_links) ->
  build_nav fuel (Some (FDir es)) "" = Ok (elide_list nav).
Proof.
  intros Hwf Hs.
  apply (side_by_side fuel es "" nav index_links Hwf (or_introl eq_refl)
           eq_refl Hs).
Qed.

Lemma build_nav_is_elided_scan_witness :
  build_nav 3
    (Some (FDir [("guide", FDir [("intro.md", FFile ""); ("notes.txt", FFile "")]);
                 ("drafts", FDir [("todo.txt", FFile "")]);
                 ("about.md", FFile "")])) ""
  = Ok (elide_list
          [NavLeaf "About" "about.md";
           NavGroup "Drafts" [];
           NavGroup "Guide" [NavLeaf "Intro" "guide/intro.md"]]).
Proof.
  exact (build_nav_is_elided_scan 3
           [("guide", FDir [("intro.md", FFile ""); ("notes.txt", FFile "")]);
            ("drafts", FDir [("todo.txt", FFile "")]);
            ("about.md", FFile "")] _ _ eq_refl eq_refl).
Defined.

(** * The paths of [build_nav] lead to files *)

Lemma Forall2_In_r {A B : Type} (R : A -> B -> Prop) la lb b :
  Forall2 R la lb -> In b lb -> exists a, In a la /\ R a b.
Proof.
  induction 1 as [|a' b' la lb HR HF IH]; intros Hb; [contradiction|].
  destruct Hb as [->|Hb].
  - exists a'. split; [now left|exact HR].
  - destruct (IH Hb) as (a & Ha & H). exists a. split; [now right|exact H].
Qed.

Lemma posix_name_spec (n : string) :
  posix_name n = true -> path_component n = true /\ no_char "\" n = true.
Proof. unfold posix_name. now rewrite andb_true_iff. Qed.

Lemma build_nav_leaves_resolve (fuel : nat) :
  forall d rel nav,
    names_all posix_name d = true ->
    no_char "\" rel = true ->
    build_nav fuel (Some d) rel = Ok nav ->
    forall n title path,
      In n nav -> leaf_in n title path ->
      exists comps content,
        comps <> []
        /\ Forall (fun c => path_component c = true) comps
        /\ path = relpath_below rel (String.concat "/" comps)
        /\ walk d comps = Some (FFile content).
Proof.
  induction fuel as [|fuel IH]; intros d rel nav Hwf Hrel H; [discriminate|].
  assert (exists es, d = FDir es) as [es ->]
    by (destruct d as [c|es]; [discriminate|eauto]).
  rewrite names_all_dir in Hwf.
  apply build_nav_level in H.
  intros n title path Hin Hleaf.
  destruct (Forall2_In_r _ _ _ _ H Hin) as (entry & Hi & He).
  apply built_names_In in Hi as ((es' & [= <-] & Hi) & _).
  destruct (posix_name_spec entry (entries_all_In _ _ _ Hwf Hi))
    as [Hpc Hbk].
  unfold emits_b in He. cbn [child] in He.
  destruct (lookup_In es entry Hi) as [y Hy]. rewrite Hy in He.
  destruct y as [content|sub]; cbn [os_path_isdir] in He.
  - subst n. inversion Hleaf; subst.
    exists [entry], content. simpl. rewrite Hy.
    repeat split; auto; [discriminate|].
    unfold PyStr.replace. apply (smap_fixed _ "\"%char).
    + intros x Hx. now rewrite Hx.
    + now apply no_char_relpath_below.
  - destruct He as (children & Hrec & _ & ->).
    inversion Hleaf as [|t cs c t' p Hc Hl]; subst.
    destruct (IH (FDir sub) (relpath_below rel entry) children
                (entries_all_lookup _ _ _ _ Hwf Hy)
                (no_char_relpath_below rel entry Hrel Hbk)
                Hrec c title path Hc Hl)
      as (comps & content & Hne & Hall & -> & Hw).
    exists (entry :: comps), content. repeat split.
    + discriminate.
    + now constructor.
    + rewrite relpath_below_nest
        by now apply path_component_spec in Hpc.
      destruct comps as [|c0 cr]; [contradiction|reflexivity].
    + simpl. now rewrite Hy.
Qed.

(** X16.  When the names below the documentation root are not empty and
    hold neither a slash nor a backslash, every path [build_nav] lists, at
    any depth, leads from the root to a file. *)
Theorem build_nav_links_resolve (fuel : nat) (root : fsnode)
    (nav : list NavNode) :
  names_all posix_name root = true ->
  build_nav fuel (Some root) "" = Ok nav ->
  forall n title path,
    In n nav -> leaf_in n title path ->
    exists content, walk root (split_path path) = Some (FFile content).
Proof.
  intros Hwf Hs n title path Hin Hleaf.
  destruct (build_nav_leaves_resolve fuel root "" nav Hwf eq_refl Hs
              n title path Hin Hleaf)
    as (comps & content & Hne & Hall & -> & Hw).
  exists content. unfold relpath_below. simpl.
  now rewrite split_path_concat.
Qed.

Lemma build_nav_links_resolve_witness :
  exists content,
    walk example_docs (split_path "guide/_draft.md") = Some (FFile content).
Proof.
  refine (build_nav_links_resolve 3 example_docs _ eq_refl eq_refl
            (NavGroup "Guide" [NavLeaf " Draft" "guide/_draft.md";
                               NavLeaf "Intro" "guide/intro.md"])
            " Draft" "guide/_draft.md" _ _).
  - simpl. tauto.
  - eapply leaf_below; [now left|constructor].
Defined.

(** * The index lists the leaves of the navigation tree *)

Lemma leaves_of_group title children :
  leaves_of (NavGroup title children) = leaves_of_list children.
Proof. reflexivity. Qed.

Lemma entries_of_link_of_node (n : NavNode) :
  entries_of (link_of_node n) = leaves_of n.
Proof.
  induction n as [title path|title children IH] using NavNode_nested_ind;
    [reflexivity|].
  rewrite link_of_node_group, entries_of_section, leaves_of_group.
  induction IH as [|c r Hc _ IHr]; simpl; [reflexivity|].
  now rewrite Hc, IHr.
Qed.

Lemma entries_of_list_mirror (nav : list NavNode) :
  entries_of_list (map link_of_node nav) = leaves_of_list nav.
Proof.
  induction nav as [|n r IH]; simpl; [reflexivity|].
  now rewrite entries_of_link_of_node, IH.
Qed.

(** X17.  The list items of the index document that [main] writes are the
    leaves of the navigation tree that it puts into the configuration, one
    item [- [title](path)] per leaf, in the order of the tree. *)
Theorem index_lists_nav_leaves (fuel : nat) (dir : option fsnode)
    (base : string) (nav : list NavNode) (index_links : list IndexLink)
    (level : nat) :
  scan_docs fuel dir base = Ok (nav, index_links) ->
  filter is_item_line (render_links index_links level [index_title_line])
  = map item_line (leaves_of_list nav).
Proof.
  intros H. rewrite render_links_items.
  rewrite (scan_docs_mirror fuel dir base nav index_links H).
  now rewrite entries_of_list_mirror.
Qed.

Lemma index_lists_nav_leaves_witness :
  filter is_item_line
    (render_links
       [IdxSection "Empty" [];
        IdxSection "Guide" [IdxEntry "Intro" "guide/intro.md"]]
       2 [index_title_line])
  = map item_line
      (leaves_of_list
         [NavGroup "Empty" [];
          NavGroup "Guide" [NavLeaf "Intro" "guide/intro.md"]]).
Proof.
  exact (index_lists_nav_leaves 3 (Some example_docs) "" _ _ 2 eq_refl).
Defined.

(** * [update_nav.py] after [generate_nav_and_index.py] *)

Lemma Forall2_In_l {A B : Type} (R : A -> B -> Prop) la lb a :
  Forall2 R la lb -> In a la -> exists b, In b lb /\ R a b.
Proof.
  induction 1 as [|a' b' la lb HR HF IH]; intros Ha; [contradiction|].
  destruct Ha as [->|Ha].
  - exists b'. split; [now left|exact HR].
  - destruct (IH Ha) as (b & Hb & H). exists b. split; [now right|exact H].
Qed.

(** X18.  After a successful run of [main], the navigation tree that
    [build_nav] of [update_nav.py] returns for the documentation root lists
    the generated index, as the leaf [Index] with the path [index.md]. *)
Theorem build_nav_lists_generated_index (limit fuel : nat) (w w1 : world)
    (nav : list NavNode) :
  main limit w = (w1, Ok tt) ->
  build_nav fuel (docs w1) "" = Ok nav ->
  In (NavLeaf "Index" "index.md") nav.
Proof.
  intros Hm Hb.
  apply main_ok_inv in Hm as (es & nav0 & idx & m & _ & _ & _ & _ & _ & Hw1).
  subst w1. cbn [docs] in Hb. destruct fuel as [|fuel]; [discriminate|].
  apply build_nav_level in Hb.
  assert (In INDEX_NAME
            (built_names (build_nav fuel)
               (Some (FDir (set_entry INDEX_NAME
                              (FFile (generate_index_md idx 2)) es))) ""))
    as Hin.
  { apply built_names_In. split.
    - eexists. split; [reflexivity|]. apply set_entry_names_In. now right.
    - unfold emitting_b. cbn [child]. now rewrite lookup_set_entry_same. }
  destruct (Forall2_In_l _ _ _ _ Hb Hin) as (node & Hnode & He).
  unfold emits_b in He. cbn [child] in He.
  rewrite lookup_set_entry_same in He. cbn [os_path_isdir] in He.
  now subst node.
Qed.

Lemma build_nav_lists_generated_index_witness :
  In (NavLeaf "Index" "index.md")
     [NavLeaf "Index" "index.md"; NavLeaf "Intro" "intro.md"].
Proof.
  exact (build_nav_lists_generated_index 3 3
           (mkWorld (Some (FDir [("intro.md", FFile "")])) None true)
           _ _ eq_refl eq_refl).
Defined.
